(** * SchwabGUI numerical core: a shallow embedding and its properties

    The embedding follows the Python sources module by module:
    - [processing/exposure_calculations/ratio.py]     (gamma flip, two methods)
    - [processing/exposure_calculations/abso_expo.py] (DEX / GEX / VEX / CEX)
    - [processing/exposure_calculations/ranking.py]   (top / bottom levels)
    - [processing/iv_models/brent_bs.py], [grok.py], [hybrid_one.py]

    Finite floating point numbers are modelled by exact rationals [Q];
    [NaN] is kept as a separate value because the sources test for it and
    return it.  Infinities and rounding error are outside the model.  The
    numerical routines of numpy and scipy ([log], [sqrt], [exp], [norm.cdf],
    [norm.pdf], [brentq], [newton]) are parameters of the development. *)

From Stdlib Require Import QArith Qround Qabs Qminmax ZArith List Bool String Ascii.
From Stdlib Require Import Lia Lqa Sorting Permutation Orders Mergesort.
From Stdlib Require Import SetoidList SetoidPermutation.
From Stdlib Require Import DecimalString.
Import ListNotations.

Local Open Scope Q_scope.

(* ================================================================== *)
(** * Numbers *)

(** Strict comparison on rationals as a boolean. *)
Definition Qlt_bool (x y : Q) : bool := negb (Qle_bool y x).

(** A Python / numpy float: a finite number or [nan]. *)
Inductive float : Type :=
| NaN
| Num (q : Q).

(** A cell read with [row.get(...)]: [None] is Python's [None]. *)
Definition cell : Type := option float.

Module Float.

Definition lift1 (f : Q -> Q) (x : float) : float :=
  match x with Num a => Num (f a) | NaN => NaN end.

Definition lift2 (f : Q -> Q -> Q) (x y : float) : float :=
  match x, y with Num a, Num b => Num (f a b) | _, _ => NaN end.

Definition add := lift2 Qplus.
Definition sub := lift2 Qminus.
Definition mul := lift2 Qmult.
Definition opp := lift1 Qopp.

(** Division of numpy floats never raises; a zero divisor gives an
    infinity or [nan], both rendered as [NaN] here. *)
Definition div (x y : float) : float :=
  match x, y with
  | Num a, Num b => if Qeq_bool b 0 then NaN else Num (a / b)
  | _, _ => NaN
  end.

(** Comparisons: every comparison with [nan] is [False]. *)
Definition leb (x y : float) : bool :=
  match x, y with Num a, Num b => Qle_bool a b | _, _ => false end.
Definition ltb (x y : float) : bool :=
  match x, y with Num a, Num b => Qlt_bool a b | _, _ => false end.
Definition eqb (x y : float) : bool :=
  match x, y with Num a, Num b => Qeq_bool a b | _, _ => false end.

Definition isnan (x : float) : bool :=
  match x with NaN => true | Num _ => false end.

(** Python's builtin [max(a, b)] and [min(a, b)] on two arguments: the
    first argument is kept unless the second compares strictly better. *)
Definition py_max (a b : float) : float := if ltb a b then b else a.
Definition py_min (a b : float) : float := if ltb b a then b else a.

(** Numerical equality of two floats ([nan] only matches [nan]). *)
Definition same (x y : float) : Prop :=
  match x, y with
  | Num a, Num b => a == b
  | NaN, NaN => True
  | _, _ => False
  end.

End Float.

Declare Scope float_scope.
Delimit Scope float_scope with F.
Bind Scope float_scope with float.
Infix "+" := Float.add : float_scope.
Infix "-" := Float.sub : float_scope.
Infix "*" := Float.mul : float_scope.
Infix "/" := Float.div : float_scope.
Notation "- x" := (Float.opp x) : float_scope.
Infix "<=?" := Float.leb (at level 70, no associativity) : float_scope.
Infix "<?" := Float.ltb (at level 70, no associativity) : float_scope.

(** [round_half_even q]: Python's [round(x)] to the nearest integer, ties
    to the even one. *)
Definition round_half_even (q : Q) : Z :=
  let f := Qfloor q in
  let r := (q - inject_Z f)%Q in
  match Qcompare r (1 # 2) with
  | Lt => f
  | Gt => (f + 1)%Z
  | Eq => if Z.even f then f else (f + 1)%Z
  end.

(** [round(x, 3)]. *)
Definition round3 (q : Q) : Q := inject_Z (round_half_even (q * 1000)) / 1000.

Definition fround3 : float -> float := Float.lift1 round3.

(** [str.upper()] on ASCII text. *)
Definition upper_ascii (c : ascii) : ascii :=
  let n := nat_of_ascii c in
  if (97 <=? n)%nat && (n <=? 122)%nat then ascii_of_nat (n - 32) else c.

Fixpoint upper (s : string) : string :=
  match s with
  | EmptyString => EmptyString
  | String c t => String (upper_ascii c) (upper t)
  end.

(* ================================================================== *)
(** * pandas: grouping rows by strike *)

Module Pandas.

(** A series indexed by strike: [(strike, value)] pairs in index order. *)
Definition series : Type := list (Q * Q).

(** One step of [df.groupby("strikePrice")[col].sum()]: the row's value
    joins the group of its strike; the group keys stay in ascending
    order, as [groupby] sorts them. *)
Fixpoint insert_group (k v : Q) (s : series) : series :=
  match s with
  | [] => [(k, v)]
  | (k', v') :: t =>
      match k ?= k' with
      | Eq => (k', v' + v) :: t
      | Lt => (k, v) :: s
      | Gt => (k', v') :: insert_group k v t
      end
  end.

Definition groupby_sum (rows : list (Q * Q)) : series :=
  fold_left (fun acc r => insert_group (fst r) (snd r) acc) rows [].

(** The strikes of a series are pairwise different numbers. *)
Definition distinct (l : list Q) : Prop := NoDupA Qeq l.

(** [df[col].str] on a column read from a file; a cell is [None] when it
    holds no text.  The accessor raises [AttributeError] when the column
    has rows but no text in any of them, since pandas then holds it as a
    column of numbers; a column without rows and a column with some text
    are accepted. *)
Definition str_raises (column : list (option string)) : bool :=
  match column with
  | [] => false
  | _ :: _ =>
      forallb (fun c => match c with None => true | Some _ => false end)
              column
  end.

End Pandas.

(* ================================================================== *)
(** * ratio.py: the gamma flip *)

Module Ratio.

Definition series : Type := Pandas.series.

(** [df.groupby("strikePrice")["GEX"].sum().sort_index(ascending=False)]:
    one entry per distinct strike, the strikes in descending order. *)
Definition gex_by_strike (rows : list (Q * Q)) : series :=
  rev (Pandas.groupby_sum rows).

(** [Series.cumsum()] on the values. *)
Fixpoint cumsum_from (acc : Q) (l : list Q) : list Q :=
  match l with
  | [] => []
  | x :: t => (acc + x) :: cumsum_from (acc + x) t
  end.

Definition cumsum (l : list Q) : list Q :=
  match l with
  | [] => []
  | x :: t => x :: cumsum_from x t
  end.

Definition levels (s : series) : list Q := map fst s.
Definition totalGamma (s : series) : list Q := cumsum (map snd s).

(** [cumulative_gex.items()]. *)
Definition cumulative_gex (s : series) : series :=
  combine (levels s) (totalGamma s).

(** The interpolation both methods apply between two neighbours.  It
    is exact here; on doubles the rounded result can coincide with one
    of the two strikes. *)
Definition interpolate (prev_strike prev_cum strike cum_value : Q) : Q :=
  let fraction := prev_cum / (prev_cum - cum_value) in
  prev_strike - fraction * (prev_strike - strike).

(** The iterative loop of [process_file]; [prev] holds
    [(prev_strike, prev_cum_gex)], [None] before the first item. *)
Fixpoint cum_loop (prev : option (Q * Q)) (items : series) : option Q :=
  match items with
  | [] => None
  | (strike, cum_value) :: rest =>
      match prev with
      | Some (prev_strike, prev_cum_gex) =>
          if Qlt_bool 0 prev_cum_gex && Qlt_bool cum_value 0
          then Some (interpolate prev_strike prev_cum_gex strike cum_value)
          else cum_loop (Some (strike, cum_value)) rest
      | None => cum_loop (Some (strike, cum_value)) rest
      end
  end.

Definition cum_gam (s : series) : option Q :=
  cum_loop None (cumulative_gex s).

(** [np.sign]. *)
Definition sign (x : Q) : Z :=
  match Qcompare x 0 with Lt => (-1)%Z | Eq => 0%Z | Gt => 1%Z end.

(** [np.diff]. *)
Fixpoint diff (l : list Z) : list Z :=
  match l with
  | a :: (b :: _) as t => (b - a)%Z :: diff t
  | _ => []
  end.

(** [np.where(a)[0]]: the indices of the non-zero entries. *)
Fixpoint where_from (i : nat) (l : list Z) : list nat :=
  match l with
  | [] => []
  | x :: t =>
      if (x =? 0)%Z then where_from (S i) t else i :: where_from (S i) t
  end.

Definition where_ (l : list Z) : list nat := where_from 0 l.

Definition zeroCrossIdx (s : series) : list nat :=
  where_ (diff (map sign (totalGamma s))).

Definition vec_gam (s : series) : option Q :=
  match zeroCrossIdx s with
  | [] => None
  | i :: _ =>
      let negGamma := nth i (totalGamma s) 0 in
      let posGamma := nth (S i) (totalGamma s) 0 in
      let negStrike := nth i (levels s) 0 in
      let posStrike := nth (S i) (levels s) 0 in
      Some (interpolate negStrike negGamma posStrike posGamma)
  end.

(** The gamma-flip part of [process_file]: [(cum_gam, vec_gam)] from the
    [(strikePrice, GEX)] columns of the rows, once [pd.to_numeric] has
    read them.  Rows without a strike, which [groupby] drops, are not
    listed; a GEX cell without a number adds nothing to its group. *)
Definition process_file (rows : list (Q * Q)) : option Q * option Q :=
  let s := gex_by_strike rows in
  (cum_gam s, vec_gam s).

(** ** Vocabulary of the specification *)

Fixpoint non_increasing (l : list Q) : Prop :=
  match l with
  | a :: (b :: _) as t => b <= a /\ non_increasing t
  | _ => True
  end.

Fixpoint non_decreasing (l : list Q) : Prop :=
  match l with
  | a :: (b :: _) as t => a <= b /\ non_decreasing t
  | _ => True
  end.

Definition monotonic (l : list Q) : Prop :=
  non_increasing l \/ non_decreasing l.

(** The signs of a series, the entries that are exactly zero left
    out. *)
Definition nonzero_signs (l : list Q) : list Z :=
  filter (fun z => negb (z =? 0)%Z) (map sign l).

(** The number of places where a list of signs changes. *)
Fixpoint changes (l : list Z) : nat :=
  match l with
  | a :: (b :: _) as t => ((if (a =? b)%Z then 0 else 1) + changes t)%nat
  | _ => 0%nat
  end.

(** How often a series changes sign: the changes between positive and
    negative along the series, whether the series passes through an
    exact zero on the way or not. *)
Definition sign_changes (l : list Q) : nat := changes (nonzero_signs l).

(** Two neighbours of which one is strictly positive and the other
    strictly negative, and their number along a series. *)
Definition crosses (a b : Q) : bool :=
  (Qlt_bool 0 a && Qlt_bool b 0) || (Qlt_bool a 0 && Qlt_bool 0 b).

Fixpoint crossings (l : list Q) : nat :=
  match l with
  | a :: (b :: _) as t =>
      ((if crosses a b then 1 else 0) + crossings t)%nat
  | _ => 0%nat
  end.

(** The structural reading of the vectorized scan, used in the proofs:
    walk the cumulative items and stop at the first neighbours whose
    [np.sign] differ. *)
Fixpoint vec_loop (prev : Q * Q) (items : series) : option Q :=
  match items with
  | [] => None
  | (strike, cum_value) :: rest =>
      if (sign (snd prev) =? sign cum_value)%Z
      then vec_loop (strike, cum_value) rest
      else Some (interpolate (fst prev) (snd prev) strike cum_value)
  end.

End Ratio.

(* ================================================================== *)
(** * abso_expo.py: exposures per contract *)

Module AbsoExpo.

(** The columns [calculate_exposures] reads from one row of the frame.
    [putCall] is [None] when the cell holds no text. *)
Record Row : Type := mkRow {
  delta : float;
  gamma : float;
  vanna : float;
  charm : float;
  spotPrice : float;
  openInterest : float;
  putCall : option string;
  impliedVolatility : float
}.

Record Exposures : Type := mkExposures {
  DEX : float;
  GEX : float;
  VEX : float;
  CEX : float
}.

Definition required_columns : list string :=
  ["delta"; "gamma"; "vanna"; "charm";
   "spotPrice"; "openInterest"; "putCall"; "impliedVolatility"]%string.

(** [lambda x: round(x / 1_000_000, 3)]. *)
Definition to_millions (x : float) : float :=
  fround3 (x / Num 1000000)%F.

(** [df["putCall"].str.upper() == "PUT"]. *)
Definition is_put (r : Row) : bool :=
  match putCall r with
  | Some s => String.eqb (upper s) "PUT"
  | None => false
  end.

Definition row_exposures (r : Row) : Exposures :=
  let dex := to_millions (delta r * openInterest r * spotPrice r)%F in
  let gex :=
    to_millions
      (gamma r * openInterest r * (spotPrice r * spotPrice r) * Num 100)%F in
  let gex := if is_put r then (gex * Num (-1))%F else gex in
  let vex :=
    to_millions
      (vanna r * openInterest r * spotPrice r * impliedVolatility r)%F in
  let cex :=
    to_millions (charm r * openInterest r * spotPrice r * Num 365)%F in
  mkExposures dex gex vex cex.

(** [calculate_exposures(df)]: [None] when a required column is missing,
    and [None] again when the body raises and [except Exception] takes
    over, which happens where [df["putCall"].str] refuses the column;
    otherwise every row with its four exposure columns. *)
Definition calculate_exposures (columns : list string) (df : list Row)
  : option (list (Row * Exposures)) :=
  if forallb (fun c => existsb (String.eqb c) columns) required_columns
  then
    if Pandas.str_raises (map putCall df) then None
    else Some (map (fun r => (r, row_exposures r)) df)
  else None.

End AbsoExpo.

(* ================================================================== *)
(** * ranking.py: top and bottom levels per Greek *)

Module Ranking.

(** Rows of the aggregated frame ordered by value, largest first
    ([sort_values(by=exposure_column, ascending=False)]).  The order
    pandas gives to equal values is not fixed; no result below depends
    on it. *)
Module ValueDesc <: TotalLeBool.
Definition t : Type := (Q * Q)%type.
Definition leb (a b : t) : bool := Qle_bool (snd b) (snd a).
Lemma leb_total : forall a b, leb a b = true \/ leb b a = true.
Proof.
  intros a b. unfold leb.
  destruct (Qle_bool (snd b) (snd a)) eqn:E; [now left | right].
  apply Qle_bool_iff. apply Qlt_le_weak, Qnot_le_lt.
  intro H. apply Qle_bool_iff in H. congruence.
Qed.
End ValueDesc.

Module ValueSort := Sort ValueDesc.

Record RankedLevel : Type := mkRanked {
  strikePrice : Q;
  TheoES : Q;
  Rank : string;
  Greek : string;
  Value : Q
}.

(** [calculate_theo_es]: [round(theo_price * 4) / 4]. *)
Definition calculate_theo_es (strike_price multiplier : Q) : Q :=
  let theo_price := strike_price + strike_price * multiplier in
  inject_Z (round_half_even (theo_price * 4)) / 4.

Definition str (n : nat) : string :=
  NilEmpty.string_of_uint (Nat.to_uint n).

(** [f"{side} {exposure_column} {k}"]. *)
Definition rank_label (side exposure_column : string) (k : nat) : string :=
  (side ++ " " ++ exposure_column ++ " " ++ str k)%string.

Definition aggregated (rows : list (Q * Q)) : Pandas.series :=
  ValueSort.sort (Pandas.groupby_sum rows).

(** [aggregated.head(n)] and [aggregated.tail(n)]. *)
Definition head {A : Type} (n : nat) (l : list A) : list A := firstn n l.
Definition tail {A : Type} (n : nat) (l : list A) : list A :=
  skipn (List.length l - n) l.

(** The rows of one bucket with their [Rank], [Greek] and [Value]
    columns; [number i] is the rank number of the [i]-th row. *)
Definition labelled (es_multiplier : Q) (side exposure_column : string)
    (number : nat -> nat) (levels : Pandas.series) : list RankedLevel :=
  map (fun ir : nat * (Q * Q) =>
         let (i, kv) := ir in
         mkRanked (fst kv)
                  (calculate_theo_es (fst kv) es_multiplier)
                  (rank_label side exposure_column (number i))
                  exposure_column
                  (snd kv))
      (combine (seq 0 (List.length levels)) levels).

Definition top_levels (es_multiplier : Q) (rows : list (Q * Q))
    (exposure_column : string) (top_n : nat) : list RankedLevel :=
  labelled es_multiplier "Call" exposure_column (fun i => (i + 1)%nat)
           (head top_n (aggregated rows)).

Definition bottom_levels (es_multiplier : Q) (rows : list (Q * Q))
    (exposure_column : string) (top_n : nat) : list RankedLevel :=
  labelled es_multiplier "Put" exposure_column (fun i => (top_n - i)%nat)
           (tail top_n (aggregated rows)).

(** [rank_exposures(df, exposure_column, top_n)], given the multiplier
    [extract_es_multiplier()] returned and the [(strikePrice, value)]
    columns of the frame. *)
Definition rank_exposures (es_multiplier : Q) (rows : list (Q * Q))
    (exposure_column : string) (top_n : nat) : list RankedLevel :=
  top_levels es_multiplier rows exposure_column top_n
  ++ bottom_levels es_multiplier rows exposure_column top_n.

(** ** Vocabulary of the specification *)

(** The strikes of the top bucket that also occur in the bottom bucket. *)
Definition overlap (top bottom : list RankedLevel) : list Q :=
  filter (fun k => existsb (Qeq_bool k) (map strikePrice bottom))
         (map strikePrice top).

Fixpoint descending (l : list Q) : Prop :=
  match l with
  | a :: (b :: _) as t => b <= a /\ descending t
  | _ => True
  end.

(** The order of the aggregated frame: the earlier row has the larger or
    equal value. *)
Definition value_ge (a b : Q * Q) : Prop :=
  is_true (ValueDesc.leb a b).

End Ranking.

(* ================================================================== *)
(** * numpy and scipy, as the solvers see them *)

Inductive exn : Type :=
| RuntimeError
| OverflowError
| ZeroDivisionError
| OtherError.

(** The outcome of a call that may raise. *)
Inductive result (A : Type) : Type :=
| Ok (a : A)
| Raise (e : exn).

Arguments Ok {A} a.
Arguments Raise {A} e.

Class Scipy : Type := {
  np_log : Q -> Q;
  np_sqrt : Q -> Q;
  np_exp : Q -> Q;
  np_pi : Q;
  norm_cdf : Q -> Q;
  norm_pdf : Q -> Q;
  (** [brentq(f, a, b, xtol=xtol)] *)
  brentq : (float -> result float) -> float -> float -> Q -> result float;
  (** [newton(f, x0, fprime=fprime, tol=tol, maxiter=maxiter)] *)
  newton : (float -> result float) -> float -> (float -> result float) ->
           Q -> nat -> result float
}.

(** What scipy promises of [brentq]: a root it returns lies in the
    bracket it was given. *)
Class ScipyLaws (sp : Scipy) : Prop := {
  brentq_in_bracket :
    forall f a b xtol x,
      brentq f (Num a) (Num b) xtol = Ok x ->
      exists q, x = Num q /\ a <= q <= b
}.

(** The numpy and scipy functions on floats: [nan] in, [nan] out. *)
Module np.
Definition log {sp : Scipy} : float -> float := Float.lift1 np_log.
Definition sqrt {sp : Scipy} : float -> float := Float.lift1 np_sqrt.
Definition exp {sp : Scipy} : float -> float := Float.lift1 np_exp.
Definition pi {sp : Scipy} : float := Num np_pi.
End np.

Module norm.
Definition cdf {sp : Scipy} : float -> float := Float.lift1 norm_cdf.
Definition pdf {sp : Scipy} : float -> float := Float.lift1 norm_pdf.
End norm.

(* ================================================================== *)
(** * The option chain rows shared by the three solver scripts *)

Module IV.

(** One row of the option chain; a field is [None] when [row.get]
    finds no such column, [Some NaN] when the cell is empty. *)
Record Row : Type := mkRow {
  spotPrice : cell;
  strikePrice : cell;
  T : cell;
  SOFR : cell;
  putCall : option string;
  mid : cell;
  mark : cell;
  last : cell
}.

Record Greeks : Type := mkGreeks {
  delta : cell;
  gamma : cell;
  vega : cell;
  theta : cell;
  rho : cell;
  vanna : cell;
  charm : cell
}.

(** Python truth value of a cell: [None] and zero are false, every
    other float, [nan] included, is true. *)
Definition truthy (c : cell) : bool :=
  match c with
  | None => false
  | Some NaN => true
  | Some (Num q) => negb (Qeq_bool q 0)
  end.

(** [a or b]. *)
Definition py_or (a b : cell) : cell := if truthy a then a else b.

(** [param is None or param <= 0]. *)
Definition none_or_nonpositive (c : cell) : bool :=
  match c with
  | None => true
  | Some x => (x <=? Num 0)%F
  end.

(** [not option_type]. *)
Definition no_text (s : option string) : bool :=
  match s with
  | None => true
  | Some s => String.eqb s ""
  end.

(** [pd.isnull]. *)
Definition isnull (c : cell) : bool :=
  match c with
  | None | Some NaN => true
  | Some (Num _) => false
  end.

(** ** Vocabulary of the specification *)

(** A market price field is available when it holds a number. *)
Definition available (c : cell) : bool := negb (isnull c).

(** The first available field of a list, [None] when there is none. *)
Fixpoint first_available (cells : list cell) : cell :=
  match cells with
  | [] => None
  | c :: rest => if available c then c else first_available rest
  end.

(** Intrinsic value: [max(0, S - K)] for calls, [max(0, K - S)] for
    puts. *)
Definition intrinsic_value (option_type : string) (S K : Q) : Q :=
  if String.eqb (upper option_type) "CALL"
  then Qmax 0 (S - K)
  else Qmax 0 (K - S).

(** The solver returned exactly [0.0]. *)
Definition is_zero (x : float) : bool := Float.eqb x (Num 0).

(** What a price field holds: nothing at all ([None]), an empty cell
    ([nan]), a zero, or any other number. *)
Inductive content : Type := Absent | Empty | Zero | Nonzero.

Definition content_of (c : cell) : content :=
  match c with
  | None => Absent
  | Some NaN => Empty
  | Some (Num q) => if Qeq_bool q 0 then Zero else Nonzero
  end.

(** Two selections are the same price: both nothing, both [nan], or the
    same number. *)
Definition same_price (a b : cell) : Prop :=
  match a, b with
  | None, None => True
  | Some x, Some y => Float.same x y
  | _, _ => False
  end.

(** The rows on which [mid or mark or last] comes out as the first
    available field:
    - the first of mid and mark that is not absent is a number other
      than zero, which both take;
    - mid and mark are absent and last is not an empty cell, so that
      both take last, or nothing;
    - each of mid and mark is absent or zero, at least one of them is
      zero, and last is zero as well, so that both take a zero. *)
Definition or_takes_first_available (mid mark last : cell) : bool :=
  match content_of mid, content_of mark, content_of last with
  | Nonzero, _, _ => true
  | Absent, Nonzero, _ => true
  | Absent, Absent, (Absent | Zero | Nonzero) => true
  | Zero, (Absent | Zero), Zero => true
  | Absent, Zero, Zero => true
  | _, _, _ => false
  end.

End IV.

(* ================================================================== *)
(** * brent_bs.py *)

Module BrentBS.
Section WithScipy.

Context {sp : Scipy}.

Definition all_none : IV.Greeks :=
  IV.mkGreeks None None None None None None None.

Definition calculate_greeks (S K T r sigma : float) (option_type : string)
  : IV.Greeks :=
  if (T <=? Num 0)%F || (sigma <=? Num 0)%F then all_none
  else
    let d1 :=
      ((np.log (S / K) + (r + Num 0.5 * (sigma * sigma)) * T)
       / (sigma * np.sqrt T))%F in
    let d2 := (d1 - sigma * np.sqrt T)%F in
    let is_call := String.eqb option_type "CALL" in
    let near_expiry := (T <? Num 1e-6)%F in
    let gamma :=
      if near_expiry then Num 1e-5
      else (norm.pdf d1 / (S * sigma * np.sqrt T))%F in
    (* [1.0 if S > K else 0.0 if option_type == "CALL" else -1.0] *)
    let delta :=
      if near_expiry then
        (if (K <? S)%F then Num 1
         else if is_call then Num 0 else Num (-1))
      else
        (if is_call then norm.cdf d1 else (norm.cdf d1 - Num 1)%F) in
    let vega := (S * norm.pdf d1 * np.sqrt T)%F in
    let theta_call :=
      ((- S * norm.pdf d1 * sigma) / (Num 2 * np.sqrt T)
       - r * K * np.exp (- r * T) * norm.cdf d2)%F in
    let theta_put :=
      ((- S * norm.pdf d1 * sigma) / (Num 2 * np.sqrt T)
       + r * K * np.exp (- r * T) * norm.cdf (- d2))%F in
    let theta := if is_call then theta_call else theta_put in
    let rho_call := (K * T * np.exp (- r * T) * norm.cdf d2)%F in
    let rho_put := (- K * T * np.exp (- r * T) * norm.cdf (- d2))%F in
    let rho := if is_call then rho_call else rho_put in
    let vanna := (d2 * S * norm.pdf d1 / sigma)%F in
    let charm :=
      (- norm.pdf d1 * (Num 2 * r * T - d2 * sigma * np.sqrt T)
       / (Num 2 * T * sigma * np.sqrt T))%F in
    IV.mkGreeks (Some delta) (Some gamma) (Some vega) (Some theta)
                (Some rho) (Some vanna) (Some charm).

(** The inner [black_scholes_price(sigma)]; it falls off its end, and
    so returns [None], for any other option type. *)
Definition black_scholes_price (S K T r : float) (option_type : string)
    (sigma : float) : cell :=
  let d1 :=
    ((np.log (S / K) + (r + Num 0.5 * (sigma * sigma)) * T)
     / (sigma * np.sqrt T))%F in
  let d2 := (d1 - sigma * np.sqrt T)%F in
  if String.eqb option_type "CALL"
  then Some (S * norm.cdf d1 - K * np.exp (- r * T) * norm.cdf d2)%F
  else if String.eqb option_type "PUT"
  then Some (K * np.exp (- r * T) * norm.cdf (- d2) - S * norm.cdf (- d1))%F
  else None.

(** [lambda sigma: black_scholes_price(sigma) - market_price]; the
    subtraction raises on a [None] price. *)
Definition objective (market_price S K T r : float) (option_type : string)
    (sigma : float) : result float :=
  match black_scholes_price S K T r option_type sigma with
  | Some p => Ok (p - market_price)%F
  | None => Raise OtherError
  end.

Definition calculate_implied_volatility
    (market_price S K T r : float) (option_type : string) : cell :=
  if (S <=? Num 0)%F || (K <=? Num 0)%F || (T <=? Num 0)%F
     || (market_price <=? Num 0)%F
  then None
  else
    let lower_bound := Num 1e-6 in
    let upper_bound := Num 10 in
    match brentq (objective market_price S K T r option_type)
                 lower_bound upper_bound 1e-5 with
    | Ok root => Some root
    | Raise _ => None
    end.

(** [market_price = row.get("last", None)]. *)
Definition market_price (row : IV.Row) : cell := IV.last row.

(** The body of the loop of [brent_bs_adjusted_processing]: [None] when
    the row is skipped, otherwise its implied volatility and Greeks.
    An empty [putCall] cell compares unequal to both type names, like
    the empty text. *)
Definition process_row (row : IV.Row) : option (float * IV.Greeks) :=
  let cells := [IV.spotPrice row; IV.strikePrice row; IV.T row;
                IV.SOFR row; market_price row] in
  if existsb IV.isnull cells then None
  else
    match IV.spotPrice row, IV.strikePrice row, IV.T row, IV.SOFR row,
          market_price row with
    | Some s, Some k, Some t, Some r, Some price =>
        let option_type :=
          match IV.putCall row with Some s => s | None => ""%string end in
        match calculate_implied_volatility price s k t r option_type with
        | None => None
        | Some iv => Some (iv, calculate_greeks s k t r iv option_type)
        end
    | _, _, _, _, _ => None
    end.

End WithScipy.
End BrentBS.

(* ================================================================== *)
(** * grok.py *)

Module Grok.
Section WithScipy.

Context {sp : Scipy}.

Definition d1 (S K T r sigma : float) : float :=
  if (sigma <=? Num 0)%F || (T <=? Num 0)%F then NaN
  else
    let capped_sigma := Float.py_min sigma (Num 10) in
    ((np.log (S / K) + (r + Num 0.5 * (capped_sigma * capped_sigma)) * T)
     / (capped_sigma * np.sqrt T))%F.

Definition d2 (S K T r sigma : float) : float :=
  (d1 S K T r sigma - sigma * np.sqrt T)%F.

Definition black_scholes (S K T r sigma : float) (option_type : string)
  : float :=
  let d1_val := d1 S K T r sigma in
  let d2_val := d2 S K T r sigma in
  if String.eqb (upper option_type) "CALL"
  then (S * norm.cdf d1_val - K * np.exp (- r * T) * norm.cdf d2_val)%F
  else if String.eqb (upper option_type) "PUT"
  then (K * np.exp (- r * T) * norm.cdf (- d2_val) - S * norm.cdf (- d1_val))%F
  else NaN.

Definition vega (S K T r sigma : float) : float :=
  (S * norm.pdf (d1 S K T r sigma) * np.sqrt T)%F.

(** [implied_volatility]: only the three listed exceptions are turned
    into [nan]; any other one leaves the function. *)
Definition implied_volatility (price S K T r : float)
    (option_type : string) : result float :=
  let sigma_initial := Num 0.5 in
  let max_sigma := Num 10 in
  match newton (fun x => Ok (black_scholes S K T r x option_type - price)%F)
               sigma_initial
               (fun x => Ok (vega S K T r x))
               1e-6 100 with
  | Ok sigma_est =>
      if (max_sigma <? sigma_est)%F || (sigma_est <=? Num 0)%F
      then Ok NaN
      else Ok sigma_est
  | Raise RuntimeError | Raise OverflowError | Raise ZeroDivisionError =>
      Ok NaN
  | Raise e => Raise e
  end.

Definition calculate_greeks (S K T r sigma : float) (option_type : string)
  : option IV.Greeks :=
  if (sigma <=? Num 0)%F || (S <=? Num 0)%F || (K <=? Num 0)%F
     || (T <=? Num 0)%F
  then None
  else
    let d1_val := d1 S K T r sigma in
    let d2_val := d2 S K T r sigma in
    let is_call := String.eqb (upper option_type) "CALL" in
    let delta := if is_call then norm.cdf d1_val else (norm.cdf d1_val - Num 1)%F in
    let gamma := (norm.pdf d1_val / (S * sigma * np.sqrt T))%F in
    let vega := (S * norm.pdf d1_val * np.sqrt T)%F in
    let theta_call :=
      ((- S * norm.pdf d1_val * sigma) / (Num 2 * np.sqrt T)
       - r * K * np.exp (- r * T) * norm.cdf d2_val)%F in
    let theta_put :=
      ((- S * norm.pdf d1_val * sigma) / (Num 2 * np.sqrt T)
       + r * K * np.exp (- r * T) * norm.cdf (- d2_val))%F in
    let theta := if is_call then theta_call else theta_put in
    let rho_call := (K * T * np.exp (- r * T) * norm.cdf d2_val)%F in
    let rho_put := (- K * T * np.exp (- r * T) * norm.cdf (- d2_val))%F in
    let rho := if is_call then rho_call else rho_put in
    let vanna := (d1_val * gamma)%F in
    let charm :=
      (- norm.pdf d1_val
       * ((Num 2 * r * T - d2_val * sigma * np.sqrt T) / (Num 2 * T)))%F in
    Some (IV.mkGreeks (Some delta) (Some gamma) (Some vega) (Some theta)
                      (Some rho) (Some vanna) (Some charm)).

(** [row.get("mid") or row.get("mark") or row.get("last")]. *)
Definition market_price (row : IV.Row) : cell :=
  IV.py_or (IV.py_or (IV.mid row) (IV.mark row)) (IV.last row).

(** [process_row]: [None] when the row is rejected, otherwise its
    implied volatility and Greeks.  The expiration date, which the
    function only parses and copies, is left out. *)
Definition process_row (row : IV.Row) : option (float * IV.Greeks) :=
  let cells := [IV.spotPrice row; IV.strikePrice row; IV.T row;
                IV.SOFR row; market_price row] in
  if existsb IV.none_or_nonpositive cells || IV.no_text (IV.putCall row)
  then None
  else
    match IV.spotPrice row, IV.strikePrice row, IV.T row, IV.SOFR row,
          market_price row, IV.putCall row with
    | Some s, Some k, Some t, Some r, Some price, Some option_type =>
        match implied_volatility price s k t r option_type with
        | Raise _ => None
        | Ok iv =>
            if Float.isnan iv then None
            else
              match calculate_greeks s k t r iv option_type with
              | None => None
              | Some greeks => Some (iv, greeks)
              end
        end
    | _, _, _, _, _, _ => None
    end.

End WithScipy.
End Grok.

(* ================================================================== *)
(** * hybrid_one.py *)

Module HybridOne.
Section WithScipy.

Context {sp : Scipy}.

Definition closed_form_iv (S K T r : float) (option_type : string)
    (observed_price : float) : float :=
  if (observed_price <=? Num 0)%F || (S <=? Num 0)%F || (K <=? Num 0)%F
     || (T <=? Num 0)%F
  then NaN
  else
    let is_call := String.eqb (upper option_type) "CALL" in
    let intrinsic_value :=
      if is_call then Float.py_max (Num 0) (S - K)%F
      else Float.py_max (Num 0) (K - S)%F in
    if (observed_price <=? intrinsic_value)%F then Num 0
    else
      let moneyness := np.log (S / K)%F in
      let volatility_estimate :=
        ((observed_price / S) * np.sqrt (Num 2 * np.pi / T))%F in
      let adjustment :=
        (((if is_call then moneyness else (- moneyness)%F)
          / volatility_estimate)
         + (r * np.sqrt T / volatility_estimate))%F in
      Float.py_max (volatility_estimate * (Num 1 + adjustment))%F (Num 0).

Definition black_scholes_price (S K T r sigma : float)
    (option_type : string) : float :=
  if existsb (fun param => (param <=? Num 0)%F) [S; K; T; sigma] then NaN
  else
    let d1 :=
      ((np.log (S / K) + (r + Num 0.5 * (sigma * sigma)) * T)
       / (sigma * np.sqrt T))%F in
    let d2 := (d1 - sigma * np.sqrt T)%F in
    if String.eqb (upper option_type) "CALL"
    then (S * norm.cdf d1 - K * np.exp (- r * T) * norm.cdf d2)%F
    else if String.eqb (upper option_type) "PUT"
    then (K * np.exp (- r * T) * norm.cdf (- d2) - S * norm.cdf (- d1))%F
    else NaN.

Definition refine_iv (S K T r : float) (option_type : string)
    (observed_price initial_iv : float) : float :=
  let objective := fun sigma =>
    Ok (black_scholes_price S K T r sigma option_type - observed_price)%F in
  let lower_bound := Float.py_max (Num 1e-6) (initial_iv * Num 0.5)%F in
  let upper_bound :=
    Float.py_min (Num 5) (Float.py_max (Num 1) (initial_iv * Num 1.5)%F) in
  match brentq objective lower_bound upper_bound 1e-8 with
  | Ok refined_iv => refined_iv
  | Raise _ => initial_iv
  end.

Definition calculate_greeks (S K T r sigma : float) (option_type : string)
  : option IV.Greeks :=
  if existsb (fun param => (param <=? Num 0)%F) [S; K; T; sigma] then None
  else
    let d1 :=
      ((np.log (S / K) + (r + Num 0.5 * (sigma * sigma)) * T)
       / (sigma * np.sqrt T))%F in
    let d2 := (d1 - sigma * np.sqrt T)%F in
    let is_call := String.eqb (upper option_type) "CALL" in
    let delta := if is_call then norm.cdf d1 else (norm.cdf d1 - Num 1)%F in
    let gamma := (norm.pdf d1 / (S * sigma * np.sqrt T))%F in
    let vega := (S * norm.pdf d1 * np.sqrt T)%F in
    let theta_call :=
      ((- S * norm.pdf d1 * sigma) / (Num 2 * np.sqrt T)
       - r * K * np.exp (- r * T) * norm.cdf d2)%F in
    let theta_put :=
      ((- S * norm.pdf d1 * sigma) / (Num 2 * np.sqrt T)
       + r * K * np.exp (- r * T) * norm.cdf (- d2))%F in
    let theta := if is_call then theta_call else theta_put in
    let rho_call := (K * T * np.exp (- r * T) * norm.cdf d2)%F in
    let rho_put := (- K * T * np.exp (- r * T) * norm.cdf (- d2))%F in
    let rho := if is_call then rho_call else rho_put in
    let vanna := (d1 * gamma)%F in
    let charm :=
      (- norm.pdf d1
       * ((Num 2 * r * T - d2 * sigma * np.sqrt T) / (Num 2 * T)))%F in
    Some (IV.mkGreeks (Some delta) (Some gamma) (Some vega) (Some theta)
                      (Some rho) (Some vanna) (Some charm)).

(** [row.get("mid") or row.get("mark") or row.get("last")]. *)
Definition market_price (row : IV.Row) : cell :=
  IV.py_or (IV.py_or (IV.mid row) (IV.mark row)) (IV.last row).

(** [process_row], without the expiration date it parses and copies. *)
Definition process_row (row : IV.Row) : option (float * IV.Greeks) :=
  let cells := [IV.spotPrice row; IV.strikePrice row; IV.T row;
                IV.SOFR row; market_price row] in
  if existsb IV.none_or_nonpositive cells || IV.no_text (IV.putCall row)
  then None
  else
    match IV.spotPrice row, IV.strikePrice row, IV.T row, IV.SOFR row,
          market_price row, IV.putCall row with
    | Some s, Some k, Some t, Some r, Some price, Some option_type =>
        let initial_iv := closed_form_iv s k t r option_type price in
        let refined_iv := refine_iv s k t r option_type price initial_iv in
        match calculate_greeks s k t r refined_iv option_type with
        | None => None
        | Some greeks => Some (refined_iv, greeks)
        end
    | _, _, _, _, _, _ => None
    end.

End WithScipy.
End HybridOne.

(* ================================================================== *)
(** * A coarse rational instance of the numerical library

    Bisection stands for [brentq], the plain Newton iteration for
    [newton], and first-order rational expressions for the transcendental
    functions.  It serves to run the definitions on concrete rows. *)

Module Coarse.

Definition clamp01 (x : Q) : Q := Qmax 0 (Qmin 1 x).

(** The values [x] and [y] do not have the same strict sign. *)
Definition brackets (x y : float) : bool :=
  ((x <=? Num 0)%F && (Num 0 <=? y)%F)
  || ((y <=? Num 0)%F && (Num 0 <=? x)%F).

Definition value_at (f : float -> result float) (x : Q) : float :=
  match f (Num x) with Ok y => y | Raise _ => NaN end.

Fixpoint bisect (fuel : nat) (f : float -> result float) (a b : Q) : Q :=
  match fuel with
  | O => a
  | S fuel' =>
      let m := (a + b) / 2 in
      if brackets (value_at f a) (value_at f m)
      then bisect fuel' f a m
      else bisect fuel' f m b
  end.

Definition bisect_brentq (f : float -> result float) (a b : float)
    (xtol : Q)
  : result float :=
  match a, b with
  | Num a, Num b =>
      if Qle_bool a b && brackets (value_at f a) (value_at f b)
      then Ok (Num (bisect 24 f a b))
      else Raise OtherError
  | _, _ => Raise OtherError
  end.

Fixpoint newton_from (maxiter : nat) (f fprime : float -> result float)
    (tol : Q) (x : float) : result float :=
  match maxiter with
  | O => Raise RuntimeError
  | S maxiter' =>
      match f x, fprime x with
      | Ok fx, Ok dfx =>
          if Float.eqb dfx (Num 0) then Raise RuntimeError
          else
            let x' := (x - fx / dfx)%F in
            if (Float.lift1 Qabs (x' - x) <=? Num tol)%F then Ok x'
            else newton_from maxiter' f fprime tol x'
      | Raise e, _ => Raise e
      | _, Raise e => Raise e
      end
  end.

Definition iterate_newton (f : float -> result float) (x0 : float)
    (fprime : float -> result float) (tol : Q) (maxiter : nat)
  : result float :=
  newton_from maxiter f fprime tol x0.

Definition scipy : Scipy := {|
  np_log := fun x => x - 1;
  np_sqrt := fun x => (1 + x) / 2;
  np_exp := fun x => 1 + x;
  np_pi := 3.14159;
  norm_cdf := fun x => clamp01 ((1 # 2) + x / 4);
  norm_pdf := fun x => Qmax 0 ((2 # 5) - Qabs x / 10);
  brentq := bisect_brentq;
  newton := iterate_newton
|}.

End Coarse.

(* ================================================================== *)
(** * ratio.py: call and put totals per Greek *)

Module GreekTotals.

(** The columns [calculate_greek_totals] reads from one row. *)
Record Row : Type := mkRow {
  putCall : option string;
  DEX : float;
  GEX : float;
  CEX : float;
  VEX : float
}.

(** [round(x, 6)]. *)
Definition round6 (q : Q) : Q :=
  inject_Z (round_half_even (q * 1000000)) / 1000000.

(** [df["putCall"].str.upper() == side]. *)
Definition is_side (side : string) (r : Row) : bool :=
  match putCall r with
  | Some s => String.eqb (upper s) side
  | None => false
  end.

(** [Series.sum()]: cells without a number are skipped. *)
Fixpoint series_sum (l : list float) : Q :=
  match l with
  | [] => 0
  | Num x :: t => x + series_sum t
  | NaN :: t => series_sum t
  end.

(** [df.loc[df["putCall"].str.upper() == side, greek].sum()]. *)
Definition side_total (side : string) (greek : Row -> float)
    (df : list Row) : Q :=
  series_sum (map greek (filter (is_side side) df)).

Record Totals : Type := mkTotals {
  Greek : string;
  Call : Q;
  Put : Q;
  Ratio : option Q
}.

(** One row of the totals.  The sums are exact here, and so is the test
    [put_total_abs != 0]; on doubles a put column that cancels can leave
    a residue, by which the code then divides. *)
Definition greek_row (name : string) (greek : Row -> float)
    (df : list Row) : Totals :=
  let call_total := side_total "CALL" greek df in
  let put_total := side_total "PUT" greek df in
  let call_total_abs := Qabs call_total in
  let put_total_abs := Qabs put_total in
  let ratio :=
    if negb (Qeq_bool put_total_abs 0)
    then Some (call_total_abs / put_total_abs)
    else None in
  mkTotals name (round3 call_total) (round3 put_total)
           (option_map round6 ratio).

(** [calculate_greek_totals(df)]: one row per Greek, or the empty frame
    of [except Exception: return pd.DataFrame()] when
    [df["putCall"].str] refuses the column. *)
Definition calculate_greek_totals (df : list Row) : list Totals :=
  if Pandas.str_raises (map putCall df) then []
  else
    [greek_row "DEX" DEX df; greek_row "GEX" GEX df;
     greek_row "CEX" CEX df; greek_row "VEX" VEX df].

End GreekTotals.

(* ================================================================== *)
(** * Dates: the expiration buckets of the solver scripts *)

Module Dates.

(** A [date] is its proleptic Gregorian ordinal ([date.toordinal()]);
    day 1 is Monday, 1 January of year 1. *)
Definition date : Type := Z.

(** [date.weekday()]: Monday is 0, Sunday is 6. *)
Definition weekday (d : date) : Z := ((d + 6) mod 7)%Z.

(** [d + timedelta(days=n)]. *)
Definition add_days (d : date) (n : Z) : date := (d + n)%Z.

Definition is_leap (year : Z) : bool :=
  ((year mod 4 =? 0) && (negb (year mod 100 =? 0) || (year mod 400 =? 0)))%Z.

(** [calendar.monthrange(year, month)[1]]. *)
Definition days_in_month (year month : Z) : Z :=
  (if month =? 2 then (if is_leap year then 29 else 28)
   else if (month =? 4) || (month =? 6) || (month =? 9) || (month =? 11)
        then 30 else 31)%Z.

Definition days_before_year (year : Z) : Z :=
  (let y := year - 1 in y * 365 + y / 4 - y / 100 + y / 400)%Z.

Definition days_before_month (year month : Z) : Z :=
  fold_left Z.add
    (map (fun m => days_in_month year (Z.of_nat m))
         (seq 1 (Z.to_nat (month - 1))))
    0%Z.

(** [datetime(year, month, day).date()] as an ordinal. *)
Definition ymd (year month day : Z) : date :=
  (days_before_year year + days_before_month year month + day)%Z.

(** [get_last_trading_day(year, month)]. *)
Definition get_last_trading_day (year month : Z) : date :=
  let last_day := days_in_month year month in
  let last_date := ymd year month last_day in
  if (weekday last_date =? 5)%Z then add_days last_date (-1)
  else if (weekday last_date =? 6)%Z then add_days last_date (-2)
  else last_date.

(** [get_upcoming_friday(today)]. *)
Definition get_upcoming_friday (today : date) : date :=
  let days_to_friday := ((4 - weekday today) mod 7)%Z in
  add_days today days_to_friday.

(** The four bucketed frames of the processing functions; [expiration]
    reads the [expirationDate] column of a result row, [last_day] is
    [get_last_trading_day(today.year, today.month)]. *)
Section Buckets.

Context {A : Type} (expiration : A -> date).

Definition df_0dte (today : date) (df_results : list A) : list A :=
  filter (fun r => (expiration r =? today)%Z) df_results.

Definition df_1dte (today : date) (df_results : list A) : list A :=
  filter (fun r => ((today <=? expiration r)
                    && (expiration r <=? add_days today 1))%Z)
         df_results.

Definition df_eow (today : date) (df_results : list A) : list A :=
  filter (fun r => ((today <=? expiration r)
                    && (expiration r <=? get_upcoming_friday today))%Z)
         df_results.

Definition df_eom (today last_day : date) (df_results : list A) : list A :=
  filter (fun r => ((today <=? expiration r)
                    && (expiration r <=? last_day))%Z)
         df_results.

End Buckets.

End Dates.

(* ================================================================== *)
(** * Vocabulary for series of strikes and values *)

Module Flip.

(** The strikes fall strictly along the list. *)
Definition falling (l : list Q) : Prop :=
  StronglySorted (fun a b => b < a) l.

(** The sum of a list of values. *)
Fixpoint total (l : list Q) : Q :=
  match l with
  | [] => 0
  | x :: t => x + total t
  end.

End Flip.

(* ================================================================== *)
(** * Vocabulary for rounded values *)

Module Rounding.

(** A number with at most three decimals. *)
Definition milli (x : Q) : Prop := exists n : Z, x == inject_Z n / 1000.

(** A multiple of one quarter. *)
Definition quarter (x : Q) : Prop := exists n : Z, x == inject_Z n / 4.

End Rounding.

(* ================================================================== *)
(** * Rows kept by the solver scripts *)

Module Rows.

(** A dictionary entry that is not [None]. *)
Definition present (c : cell) : bool :=
  match c with Some _ => true | None => false end.

(** All seven Greeks of a result are there. *)
Definition complete (g : IV.Greeks) : bool :=
  forallb present [IV.delta g; IV.gamma g; IV.vega g; IV.theta g;
                   IV.rho g; IV.vanna g; IV.charm g].

(** An input that is there and, when a number, positive. *)
Definition usable (c : cell) : Prop :=
  c <> None /\ forall q, c = Some (Num q) -> 0 < q.

End Rows.

(* ================================================================== *)
(** * The order in which the result files are processed *)

Module Files.

(** [sub in s] on strings. *)
Fixpoint contains (sub s : string) : bool :=
  prefix sub s
  || match s with
     | EmptyString => false
     | String _ rest => contains sub rest
     end.

(** [<=] on the tuples [(flag, stem)]: [False] sorts before [True],
    equal flags are settled by the stems. *)
Definition key_leb (a b : bool * string) : bool :=
  match fst a, fst b with
  | false, true => true
  | true, false => false
  | _, _ => String.leb (snd a) (snd b)
  end.

Section Sort.

Context {A : Type} (stem : A -> string).

(** [lambda f: ("_results" in f.stem, f.stem)]. *)
Definition key (f : A) : bool * string :=
  (contains "_results" (stem f), stem f).

(** [csv_files.sort(key=...)]: a stable sort, an element goes in front
    of the first later element whose key is not smaller. *)
Fixpoint insert (f : A) (sorted : list A) : list A :=
  match sorted with
  | [] => [f]
  | g :: rest =>
      if key_leb (key f) (key g) then f :: sorted
      else g :: insert f rest
  end.

Definition sort (csv_files : list A) : list A :=
  fold_right insert [] csv_files.

(** The key of [f] is at most the key of [g]. *)
Definition ordered (f g : A) : Prop := key_leb (key f) (key g) = true.

(** The first component of the key. *)
Definition flag (f : A) : bool := fst (key f).

End Sort.

End Files.

(* ================================================================== *)
(** * Properties *)

(** ** Comparisons and signs *)

Lemma Qlt_bool_iff (x y : Q) : Qlt_bool x y = true <-> x < y.
Proof.
  unfold Qlt_bool. rewrite negb_true_iff. split; intro H.
  - apply Qnot_le_lt. intro L. apply Qle_bool_iff in L. congruence.
  - destruct (Qle_bool y x) eqn:E; [ | reflexivity ].
    apply Qle_bool_iff in E. exfalso. apply (Qlt_not_le _ _ H E).
Qed.

Lemma Qlt_bool_false (x y : Q) : Qlt_bool x y = false <-> y <= x.
Proof.
  unfold Qlt_bool. rewrite negb_false_iff. apply Qle_bool_iff.
Qed.

Lemma Qle_bool_false (x y : Q) : Qle_bool x y = false <-> y < x.
Proof.
  rewrite <- Qlt_bool_iff. unfold Qlt_bool.
  destruct (Qle_bool x y); simpl; intuition congruence.
Qed.

Module RatioFacts.
Import Ratio.

Lemma sign_pos (x : Q) : sign x = 1%Z <-> 0 < x.
Proof.
  unfold sign. rewrite Qgt_alt.
  destruct (x ?= 0); intuition congruence.
Qed.

Lemma sign_neg (x : Q) : sign x = (-1)%Z <-> x < 0.
Proof.
  unfold sign. rewrite Qlt_alt.
  destruct (x ?= 0); intuition congruence.
Qed.

Lemma sign_zero (x : Q) : sign x = 0%Z <-> x == 0.
Proof.
  unfold sign. rewrite Qeq_alt.
  destruct (x ?= 0); intuition congruence.
Qed.

Lemma sign_cases (x : Q) :
  (sign x = 1%Z /\ 0 < x) \/ (sign x = 0%Z /\ x == 0)
  \/ (sign x = (-1)%Z /\ x < 0).
Proof.
  destruct (Q_dec x 0) as [[H | H] | H].
  - right; right. split; [ now apply sign_neg | exact H ].
  - left. split; [ now apply sign_pos | exact H ].
  - right; left. split; [ now apply sign_zero | exact H ].
Qed.

(** Adding two numbers of one sign keeps that sign. *)
Lemma sign_add (a b : Q) : sign a = sign b -> sign (a + b) = sign a.
Proof.
  intro E.
  destruct (sign_cases a) as [[Ha Pa] | [[Ha Pa] | [Ha Pa]]];
    destruct (sign_cases b) as [[Hb Pb] | [[Hb Pb] | [Hb Pb]]];
    rewrite Ha, Hb in E; try discriminate; rewrite Ha.
  - apply sign_pos. lra.
  - apply sign_zero. lra.
  - apply sign_neg. lra.
Qed.

(** ** The cumulative series keeps a common sign *)

Lemma cumsum_from_sign (sg : Z) (l : list Q) :
  forall acc,
    sign acc = sg ->
    Forall (fun x => sign x = sg) l ->
    Forall (fun x => sign x = sg) (cumsum_from acc l).
Proof.
  induction l as [ | x t IH ]; intros acc Hacc Hl; simpl.
  - constructor.
  - pose proof (Forall_inv Hl) as Hx.
    pose proof (Forall_inv_tail Hl) as Ht.
    assert (Hsum : sign (acc + x) = sg).
    { rewrite sign_add; congruence. }
    constructor; [ exact Hsum | apply IH; assumption ].
Qed.

Lemma totalGamma_sign (sg : Z) (s : series) :
  Forall (fun kv => sign (snd kv) = sg) s ->
  Forall (fun x => sign x = sg) (totalGamma s).
Proof.
  intro H. unfold totalGamma.
  destruct s as [ | [k v] t ]; simpl; [ constructor | ].
  pose proof (Forall_inv H) as Hv.
  pose proof (Forall_inv_tail H) as Ht. simpl in Hv.
  constructor; [ exact Hv | ].
  apply cumsum_from_sign; [ exact Hv | ].
  rewrite Forall_map. exact Ht.
Qed.

Lemma Forall_combine_snd {A B : Type} (P : B -> Prop) (l1 : list A) :
  forall l2, Forall P l2 -> Forall (fun kv => P (snd kv)) (combine l1 l2).
Proof.
  induction l1 as [ | a l1 IH ]; intros [ | b l2 ] H; simpl;
    try constructor.
  - inversion H; assumption.
  - inversion H; apply IH; assumption.
Qed.

(** ** No flip without a change of sign *)

Lemma cum_loop_same_sign (sg : Z) (items : series) :
  forall prev,
    Forall (fun kv => sign (snd kv) = sg) items ->
    match prev with Some (_, pc) => sign pc = sg | None => True end ->
    cum_loop prev items = None.
Proof.
  induction items as [ | [strike cum_value] rest IH ];
    intros prev Hall Hprev; simpl; [ reflexivity | ].
  pose proof (Forall_inv Hall) as Hc.
  pose proof (Forall_inv_tail Hall) as Hrest. simpl in Hc.
  destruct prev as [ [prev_strike prev_cum_gex] | ].
  - destruct (Qlt_bool 0 prev_cum_gex && Qlt_bool cum_value 0) eqn:E.
    + apply andb_true_iff in E. destruct E as [E1 E2].
      apply Qlt_bool_iff, sign_pos in E1.
      apply Qlt_bool_iff, sign_neg in E2. congruence.
    + apply IH; assumption.
  - apply IH; assumption.
Qed.

Lemma where_from_constant (sg : Z) (l : list Z) :
  forall i, Forall (fun z => z = sg) l -> where_from i (diff l) = [].
Proof.
  induction l as [ | a t IH ]; intros i H; [ reflexivity | ].
  destruct t as [ | b t' ]; [ reflexivity | ].
  pose proof (Forall_inv H) as Ha.
  pose proof (Forall_inv_tail H) as Ht.
  pose proof (Forall_inv Ht) as Hb.
  change (diff (a :: b :: t')) with ((b - a)%Z :: diff (b :: t')).
  cbn [where_from].
  replace (b - a =? 0)%Z with true
    by (symmetry; apply Z.eqb_eq; simpl in Ha, Hb; lia).
  apply IH. exact Ht.
Qed.

(** ** The vectorized scan, read structurally *)

Lemma length_cumsum_from (l : list Q) :
  forall acc, List.length (cumsum_from acc l) = List.length l.
Proof.
  induction l as [ | x t IH ]; intro acc; simpl; [ | rewrite IH ];
    reflexivity.
Qed.

Lemma map_snd_combine {A B : Type} (l1 : list A) :
  forall l2 : list B,
    List.length l1 = List.length l2 -> map snd (combine l1 l2) = l2.
Proof.
  induction l1 as [ | a l1 IH ]; intros [ | b l2 ] H; simpl in *;
    try discriminate; [ reflexivity | ].
  f_equal. apply IH. lia.
Qed.

(** The index [np.where] reports is the position at which [vec_loop]
    stops; [pk] and [pc] are the strikes and sums already walked. *)
Lemma where_vec_loop (cs : list Q) :
  forall (ks pk pc : list Q) (k c : Q),
    List.length ks = List.length cs ->
    List.length pk = List.length pc ->
    match where_from (List.length pk) (diff (map sign (c :: cs))) with
    | [] => None
    | j :: _ =>
        Some (interpolate (nth j (pk ++ k :: ks) 0)
                          (nth j (pc ++ c :: cs) 0)
                          (nth (S j) (pk ++ k :: ks) 0)
                          (nth (S j) (pc ++ c :: cs) 0))
    end = vec_loop (k, c) (combine ks cs).
Proof.
  induction cs as [ | c' cs IH ]; intros ks pk pc k c Hlen Hpre.
  - destruct ks; [ reflexivity | discriminate ].
  - destruct ks as [ | k' ks ]; [ discriminate | ].
    change (diff (map sign (c :: c' :: cs)))
      with ((sign c' - sign c)%Z :: diff (map sign (c' :: cs))).
    cbn [where_from combine vec_loop fst snd].
    destruct (sign c =? sign c')%Z eqn:E.
    + apply Z.eqb_eq in E.
      replace (sign c' - sign c =? 0)%Z with true
        by (symmetry; apply Z.eqb_eq; lia).
      specialize (IH ks (pk ++ [k]) (pc ++ [c]) k' c').
      rewrite <- !app_assoc in IH. simpl app in IH.
      rewrite length_app in IH. simpl List.length in IH.
      rewrite Nat.add_1_r in IH.
      apply IH.
      * simpl in Hlen. lia.
      * rewrite !length_app. simpl. lia.
    + apply Z.eqb_neq in E.
      replace (sign c' - sign c =? 0)%Z with false
        by (symmetry; apply Z.eqb_neq; lia).
      f_equal.
      assert (Hk : nth (List.length pk) (pk ++ k :: k' :: ks) 0 = k)
        by apply nth_middle.
      assert (Hc : nth (List.length pk) (pc ++ c :: c' :: cs) 0 = c)
        by (rewrite Hpre; apply nth_middle).
      assert (Hk' : nth (S (List.length pk)) (pk ++ k :: k' :: ks) 0 = k').
      { replace (pk ++ k :: k' :: ks) with ((pk ++ [k]) ++ k' :: ks)
          by (rewrite <- app_assoc; reflexivity).
        replace (S (List.length pk)) with (List.length (pk ++ [k]))
          by (rewrite length_app; simpl; lia).
        apply nth_middle. }
      assert (Hc' : nth (S (List.length pk)) (pc ++ c :: c' :: cs) 0 = c').
      { replace (pc ++ c :: c' :: cs) with ((pc ++ [c]) ++ c' :: cs)
          by (rewrite <- app_assoc; reflexivity).
        replace (S (List.length pk)) with (List.length (pc ++ [c]))
          by (rewrite length_app; simpl; lia).
        apply nth_middle. }
      rewrite Hk, Hc, Hk', Hc'. reflexivity.
Qed.

Lemma vec_gam_loop (s : series) :
  vec_gam s =
  match cumulative_gex s with
  | [] => None
  | first :: rest => vec_loop first rest
  end.
Proof.
  destruct s as [ | [k v] t ]; [ reflexivity | ].
  unfold vec_gam, zeroCrossIdx, where_, cumulative_gex, levels, totalGamma.
  cbn [map fst snd cumsum combine].
  apply (where_vec_loop (cumsum_from v (map snd t)) (map fst t) [] [] k v).
  - rewrite length_cumsum_from, !length_map. reflexivity.
  - reflexivity.
Qed.

Lemma cum_gam_loop (s : series) :
  cum_gam s =
  match cumulative_gex s with
  | [] => None
  | first :: rest => cum_loop (Some first) rest
  end.
Proof.
  unfold cum_gam. destruct (cumulative_gex s) as [ | [k c] rest ];
    reflexivity.
Qed.

Lemma totalGamma_cumulative_gex (s : series) :
  map snd (cumulative_gex s) = totalGamma s.
Proof.
  unfold cumulative_gex. apply map_snd_combine.
  unfold levels, totalGamma, cumsum.
  destruct s as [ | [k v] t ]; simpl; [ reflexivity | ].
  rewrite length_cumsum_from, !length_map. reflexivity.
Qed.

(** ** Agreement of the two scans on a falling series *)

Lemma crosses_falling (a b : Q) :
  b <= a -> crosses a b = true -> 0 < a /\ b < 0.
Proof.
  unfold crosses. intros Hle H.
  apply orb_true_iff in H. destruct H as [H | H];
    apply andb_true_iff in H; destruct H as [H1 H2];
    apply Qlt_bool_iff in H1; apply Qlt_bool_iff in H2.
  - split; assumption.
  - exfalso. lra.
Qed.

(** A falling series that changes sign starts strictly positive. *)
Lemma falling_crossing_starts_positive (l : list Q) :
  forall a,
    non_increasing (a :: l) ->
    (1 <= crossings (a :: l))%nat ->
    0 < a.
Proof.
  induction l as [ | b l IH ]; intros a Hmono Hch.
  - simpl in Hch. lia.
  - destruct Hmono as [Hle Hmono].
    change (crossings (a :: b :: l))
      with ((if crosses a b then 1 else 0) + crossings (b :: l))%nat
      in Hch.
    destruct (crosses a b) eqn:E.
    + apply (crosses_falling a b Hle E).
    + assert (Hb : 0 < b) by (apply IH; [ exact Hmono | lia ]).
      lra.
Qed.

Lemma loops_agree (items : series) :
  forall pk pc,
    non_increasing (pc :: map snd items) ->
    (1 <= crossings (pc :: map snd items))%nat ->
    exists v,
      cum_loop (Some (pk, pc)) items = Some v
      /\ vec_loop (pk, pc) items = Some v.
Proof.
  induction items as [ | [k c] rest IH ]; intros pk pc Hmono Hch.
  - simpl in Hch. lia.
  - pose proof (falling_crossing_starts_positive _ _ Hmono Hch) as Hpc.
    cbn [map snd] in Hmono, Hch.
    destruct Hmono as [Hle Hmono].
    change (crossings (pc :: c :: map snd rest))
      with ((if crosses pc c then 1 else 0)
            + crossings (c :: map snd rest))%nat in Hch.
    cbn [cum_loop vec_loop fst snd].
    destruct (Qlt_bool c 0) eqn:Ec.
    + (* the flip is here *)
      apply Qlt_bool_iff in Ec.
      exists (interpolate pk pc k c).
      replace (Qlt_bool 0 pc) with true
        by (symmetry; now apply Qlt_bool_iff).
      simpl andb. split; [ reflexivity | ].
      replace (sign pc =? sign c)%Z with false; [ reflexivity | ].
      symmetry. apply Z.eqb_neq.
      apply sign_pos in Hpc. apply sign_neg in Ec. lia.
    + (* no flip yet: both scans move on *)
      rewrite andb_false_r.
      assert (Hcross : crosses pc c = false).
      { unfold crosses. rewrite Ec, andb_false_r. cbn [orb].
        apply andb_false_iff. left. apply Qlt_bool_false. lra. }
      rewrite Hcross in Hch. rewrite Nat.add_0_l in Hch.
      pose proof (falling_crossing_starts_positive _ _ Hmono Hch) as Hc.
      replace (sign pc =? sign c)%Z with true.
      * apply IH; assumption.
      * symmetry. apply Z.eqb_eq.
        apply sign_pos in Hpc. apply sign_pos in Hc. lia.
Qed.

(** ** Series that are never exactly zero *)

Lemma nonzero_signs_all (l : list Q) :
  Forall (fun x => ~ x == 0) l -> nonzero_signs l = map sign l.
Proof.
  unfold nonzero_signs. induction 1 as [ | x l Hx _ IH ];
    cbn [map filter]; [ reflexivity | ].
  replace (sign x =? 0)%Z with false.
  - cbn [negb]. rewrite IH. reflexivity.
  - symmetry. apply Z.eqb_neq. intro E. apply sign_zero in E.
    contradiction.
Qed.

Lemma crosses_signs (a b : Q) :
  ~ a == 0 -> ~ b == 0 ->
  crosses a b = negb (sign a =? sign b)%Z.
Proof.
  intros Ha Hb. unfold crosses.
  destruct (sign_cases a) as [[Sa Pa] | [[Sa Pa] | [Sa Pa]]];
    [ | contradiction | ];
    destruct (sign_cases b) as [[Sb Pb] | [[Sb Pb] | [Sb Pb]]];
    try contradiction; rewrite Sa, Sb; cbn [Z.eqb Pos.eqb negb].
  - rewrite (proj2 (Qlt_bool_iff 0 a) Pa), (proj2 (Qlt_bool_false b 0));
      [ | lra ].
    rewrite (proj2 (Qlt_bool_false a 0)); [ reflexivity | lra ].
  - rewrite (proj2 (Qlt_bool_iff 0 a) Pa), (proj2 (Qlt_bool_iff b 0) Pb).
    reflexivity.
  - rewrite (proj2 (Qlt_bool_false 0 a)), (proj2 (Qlt_bool_iff a 0) Pa),
      (proj2 (Qlt_bool_iff 0 b) Pb); [ reflexivity | lra ].
  - rewrite (proj2 (Qlt_bool_false 0 a)), (proj2 (Qlt_bool_false 0 b));
      [ | lra | lra ].
    rewrite andb_false_r. reflexivity.
Qed.

Lemma sign_changes_crossings (l : list Q) :
  Forall (fun x => ~ x == 0) l -> sign_changes l = crossings l.
Proof.
  intro H. unfold sign_changes. rewrite (nonzero_signs_all l H).
  induction H as [ | a l Ha Hl IH ]; [ reflexivity | ].
  destruct Hl as [ | b l Hb Hl ]; [ reflexivity | ].
  change (changes (map sign (a :: b :: l)))
    with ((if (sign a =? sign b)%Z then 0 else 1)
          + changes (map sign (b :: l)))%nat.
  change (crossings (a :: b :: l))
    with ((if crosses a b then 1 else 0) + crossings (b :: l))%nat.
  rewrite IH, (crosses_signs a b Ha Hb).
  destruct (sign a =? sign b)%Z; reflexivity.
Qed.

(** ** A falling series that touches zero *)

Lemma non_increasing_head (l : list Q) :
  forall a, non_increasing (a :: l) -> Forall (fun x => x <= a) l.
Proof.
  induction l as [ | b l IH ]; intros a H; constructor.
  - apply H.
  - destruct H as [Hba H]. specialize (IH b H).
    apply (Forall_impl _ (P := fun x => x <= b)); [ | exact IH ].
    intros x Hx. lra.
Qed.

(** The iterative loop finds nothing once the series is at or below
    zero, nor while a zero lies ahead. *)
Lemma cum_loop_zero (items : series) :
  forall pk pc,
    non_increasing (pc :: map snd items) ->
    pc <= 0 \/ Exists (fun x => x == 0) (map snd items) ->
    cum_loop (Some (pk, pc)) items = None.
Proof.
  induction items as [ | [k c] rest IH ]; intros pk pc Hmono Hz;
    [ reflexivity | ].
  cbn [map snd] in Hmono, Hz. cbn [cum_loop].
  pose proof Hmono as [Hle Hrest].
  replace (Qlt_bool 0 pc && Qlt_bool c 0) with false.
  - apply IH; [ exact Hrest | ].
    destruct Hz as [ Hpc | Hex ]; [ left; lra | ].
    apply Exists_cons in Hex. destruct Hex as [ Hc | Hex ];
      [ left; lra | right; exact Hex ].
  - symmetry. apply andb_false_iff.
    destruct Hz as [ Hpc | Hex ].
    + left. apply Qlt_bool_false. exact Hpc.
    + right. apply Qlt_bool_false.
      apply Exists_cons in Hex. destruct Hex as [ Hc | Hex ]; [ lra | ].
      pose proof (non_increasing_head _ _ Hrest) as Hall.
      apply Exists_exists in Hex. destruct Hex as [x [Hin Hx]].
      rewrite Forall_forall in Hall. specialize (Hall x Hin). lra.
Qed.

End RatioFacts.

(** ** Grouping keeps one entry per strike *)

Module PandasFacts.
Import Pandas.

Lemma insert_group_hd (x k v : Q) (s : series) :
  HdRel Qlt x (map fst s) -> x < k ->
  HdRel Qlt x (map fst (insert_group k v s)).
Proof.
  intros Hhd Hlt. destruct s as [ | [k' v'] t ]; simpl.
  - constructor. exact Hlt.
  - apply HdRel_inv in Hhd. simpl in Hhd.
    destruct (k ?= k'); simpl; constructor; assumption.
Qed.

Lemma insert_group_sorted (k v : Q) (s : series) :
  Sorted Qlt (map fst s) -> Sorted Qlt (map fst (insert_group k v s)).
Proof.
  induction s as [ | [k' v'] t IH ]; intro Hs; simpl.
  - repeat constructor.
  - simpl in Hs. apply Sorted_inv in Hs. destruct Hs as [Hs Hhd].
    destruct (k ?= k') eqn:E; simpl.
    + constructor; assumption.
    + apply Qlt_alt in E.
      constructor; [ constructor; assumption | constructor; exact E ].
    + apply Qgt_alt in E.
      constructor; [ apply IH; exact Hs | ].
      apply insert_group_hd; assumption.
Qed.

Lemma groupby_sum_sorted (rows : list (Q * Q)) :
  Sorted Qlt (map fst (groupby_sum rows)).
Proof.
  unfold groupby_sum.
  assert (G : forall acc, Sorted Qlt (map fst acc) ->
              Sorted Qlt (map fst (fold_left
                (fun acc r => insert_group (fst r) (snd r) acc) rows acc))).
  { induction rows as [ | r rows IH ]; intros acc Hacc; simpl.
    - exact Hacc.
    - apply IH. apply insert_group_sorted. exact Hacc. }
  apply G. constructor.
Qed.

Lemma sorted_distinct (l : list Q) : Sorted Qlt l -> distinct l.
Proof.
  intro Hs. apply Sorted_StronglySorted in Hs.
  - induction Hs as [ | a l Hs IH Hall ]; constructor.
    + intro Hin. apply InA_alt in Hin. destruct Hin as [y [Hy Hin]].
      rewrite Forall_forall in Hall. specialize (Hall y Hin).
      rewrite Hy in Hall. apply (Qlt_irrefl y Hall).
    + exact IH.
  - intros x y z. apply Qlt_trans.
Qed.

(** One entry per distinct strike. *)
Lemma groupby_sum_distinct (rows : list (Q * Q)) :
  distinct (map fst (groupby_sum rows)).
Proof.
  apply sorted_distinct, groupby_sum_sorted.
Qed.

Lemma distinct_permutation (l l' : list Q) :
  Permutation l l' -> distinct l -> distinct l'.
Proof.
  intros Hp Hd. unfold distinct in *.
  refine (PermutationA_preserves_NoDupA Q_Setoid _ Hd).
  apply Permutation_PermutationA; [ exact Q_Setoid | exact Hp ].
Qed.

Lemma distinct_app_disjoint (a b : list Q) :
  distinct (a ++ b) -> forall x, In x a -> ~ InA Qeq x b.
Proof.
  induction a as [ | y a IH ]; intros Hd x Hin; [ contradiction | ].
  simpl in Hd. inversion Hd as [ | ? ? Hnot Hrest ]; subst.
  destruct Hin as [ -> | Hin ].
  - intro Hb. apply Hnot. apply InA_app_iff. right. exact Hb.
  - apply IH; assumption.
Qed.

End PandasFacts.

(* ================================================================== *)
(** * The gamma flip: claims C1, C4 and C6 *)

(** C1, as stated, fails.  With the per-strike GEX [+50, +20, -10, -40]
    at the strikes [105, 104, 103, 102] the cumulative series both
    methods scan is [50, 70, 60, 20]; it never changes sign, and both
    methods report no flip. *)
Lemma C1_per_strike_input_has_no_flip :
  Ratio.totalGamma
    (Ratio.gex_by_strike [(105, 50); (104, 20); (103, -10); (102, -40)])
  = [50; 70; 60; 20]
  /\ Ratio.process_file [(105, 50); (104, 20); (103, -10); (102, -40)]
     = (None, None).
Proof.
  split; vm_compute; reflexivity.
Qed.

(** C1, amended: when [+50, +20, -10, -40] is the cumulative series at
    the strikes [105, 104, 103, 102] (per-strike GEX
    [+50, -30, -30, -30]), both methods return the interpolated strike
    104 - (20 / (20 - (-10))) * (104 - 103) = 310/3, that is 103.33 to two
    decimals. *)
Theorem C1_flip_of_cumulative_series :
  Ratio.totalGamma
    (Ratio.gex_by_strike [(105, 50); (104, -30); (103, -30); (102, -30)])
  = [50; 20; -10; -40]
  /\ exists v,
       Ratio.process_file [(105, 50); (104, -30); (103, -30); (102, -30)]
       = (Some v, Some v)
       /\ v == 104 - (20 / (20 - (-10))) * (104 - 103)
       /\ v == 310 # 3
       /\ Qabs (v - 103.33) < 0.005.
Proof.
  split; [ vm_compute; reflexivity | ].
  exists (3100 # 30).
  repeat split; vm_compute; reflexivity.
Qed.

(** C4, as stated, fails, in two ways.  A cumulative series that rises
    through zero is monotonic and changes sign exactly once, yet the
    iterative method, which only looks for a positive value followed by
    a negative one, finds no flip where the vectorized method finds one.
    And a cumulative series that falls through an exact zero, 10, 0,
    -10, is monotonic and changes sign exactly once, yet the iterative
    method again finds nothing, where the vectorized method reports the
    strike at which the series is zero. *)
Lemma C4_single_crossing_series_disagree :
  (Ratio.monotonic (Ratio.totalGamma [(101, -10); (100, 20)])
   /\ Ratio.sign_changes (Ratio.totalGamma [(101, -10); (100, 20)]) = 1%nat
   /\ Ratio.cum_gam [(101, -10); (100, 20)] = None
   /\ exists v,
        Ratio.vec_gam [(101, -10); (100, 20)] = Some v /\ v == 100.5)
  /\ (Ratio.totalGamma [(105, 10); (104, -10); (103, -10)] = [10; 0; -10]
      /\ Ratio.monotonic
           (Ratio.totalGamma [(105, 10); (104, -10); (103, -10)])
      /\ Ratio.sign_changes
           (Ratio.totalGamma [(105, 10); (104, -10); (103, -10)]) = 1%nat
      /\ Ratio.cum_gam [(105, 10); (104, -10); (103, -10)] = None
      /\ exists v,
           Ratio.vec_gam [(105, 10); (104, -10); (103, -10)] = Some v
           /\ v == 104).
Proof.
  split; [ split; [ | split; [ | split ] ]
         | split; [ | split; [ | split; [ | split ] ] ] ].
  - right. simpl. split; [ unfold Qle; simpl; lia | exact I ].
  - vm_compute. reflexivity.
  - vm_compute. reflexivity.
  - exists (2010 # 20). split; vm_compute; reflexivity.
  - vm_compute. reflexivity.
  - left. simpl. repeat split; unfold Qle; simpl; lia.
  - vm_compute. reflexivity.
  - vm_compute. reflexivity.
  - exists (1040 # 10). split; vm_compute; reflexivity.
Qed.

(** C4, amended: on every per-strike GEX series whose cumulative
    (high-to-low) sum is monotonically non-increasing and changes sign
    exactly once, the iterative and the vectorized method return the same
    flip strike, not null, exactly when the cumulative sum is at no
    strike exactly zero. *)
Theorem C4_falling_series_agree (s : Ratio.series) :
  Ratio.non_increasing (Ratio.totalGamma s) ->
  Ratio.sign_changes (Ratio.totalGamma s) = 1%nat ->
  (exists v, Ratio.cum_gam s = Some v /\ Ratio.vec_gam s = Some v)
  <-> Forall (fun x => ~ x == 0) (Ratio.totalGamma s).
Proof.
  intros Hmono Hch. split.
  - intros [v [Hcum _]].
    destruct (Forall_Exists_dec (fun x => ~ x == 0)
                (fun x => match Qeq_dec x 0 with
                          | left E => right (fun H => H E)
                          | right N => left N
                          end)
                (Ratio.totalGamma s)) as [ Hall | Hex ];
      [ exact Hall | exfalso ].
    rewrite RatioFacts.cum_gam_loop in Hcum.
    rewrite <- RatioFacts.totalGamma_cumulative_gex in Hmono, Hex.
    destruct (Ratio.cumulative_gex s) as [ | [pk pc] rest ];
      [ discriminate Hcum | ].
    cbn [map snd] in Hmono, Hex.
    rewrite RatioFacts.cum_loop_zero in Hcum; [ discriminate Hcum | | ].
    + exact Hmono.
    + apply Exists_cons in Hex. destruct Hex as [ Hz | Hex ].
      * left. destruct (Qeq_dec pc 0) as [ E | N ];
          [ rewrite E; apply Qle_refl | contradiction ].
      * right. apply Exists_exists in Hex. destruct Hex as [x [Hin Hx]].
        apply Exists_exists. exists x. split; [ exact Hin | ].
        destruct (Qeq_dec x 0) as [ E | N ]; [ exact E | contradiction ].
  - intro Hnz.
    rewrite (RatioFacts.sign_changes_crossings _ Hnz) in Hch.
    rewrite RatioFacts.cum_gam_loop, RatioFacts.vec_gam_loop.
    rewrite <- RatioFacts.totalGamma_cumulative_gex in Hmono, Hch.
    destruct (Ratio.cumulative_gex s) as [ | [pk pc] rest ].
    + discriminate Hch.
    + apply RatioFacts.loops_agree; [ exact Hmono | ].
      simpl map in Hch. rewrite Hch. constructor.
Qed.

Lemma C4_falling_series_agree_witness :
  exists v,
    Ratio.cum_gam [(105, 50); (104, -30); (103, -30); (102, -30)] = Some v
    /\ Ratio.vec_gam [(105, 50); (104, -30); (103, -30); (102, -30)] = Some v.
Proof.
  refine (proj2 (C4_falling_series_agree
                   [(105, 50); (104, -30); (103, -30); (102, -30)] _ _) _).
  - simpl. repeat split; unfold Qle; simpl; lia.
  - vm_compute. reflexivity.
  - repeat constructor; discriminate.
Defined.

(** C6: when all per-strike GEX values share one sign (all positive, all
    negative, or all zero), both methods return null. *)
Theorem C6_one_sign_no_flip (s : Ratio.series) (sg : Z) :
  Forall (fun kv => Ratio.sign (snd kv) = sg) s ->
  Ratio.cum_gam s = None /\ Ratio.vec_gam s = None.
Proof.
  intro H.
  pose proof (RatioFacts.totalGamma_sign sg s H) as Hcum.
  split.
  - unfold Ratio.cum_gam.
    apply (RatioFacts.cum_loop_same_sign sg); [ | exact I ].
    unfold Ratio.cumulative_gex.
    apply (RatioFacts.Forall_combine_snd (fun x => Ratio.sign x = sg)).
    exact Hcum.
  - unfold Ratio.vec_gam, Ratio.zeroCrossIdx, Ratio.where_.
    rewrite (RatioFacts.where_from_constant sg); [ reflexivity | ].
    rewrite Forall_map. exact Hcum.
Qed.

Lemma C6_one_sign_no_flip_witness :
  Ratio.cum_gam [(105, 5); (104, 3); (103, 8)] = None
  /\ Ratio.vec_gam [(105, 5); (104, 3); (103, 8)] = None.
Proof.
  apply (C6_one_sign_no_flip _ 1%Z).
  repeat constructor.
Defined.

(* ================================================================== *)
(** * Exposures: claim C7 *)

Module AbsoExpoFacts.
Import AbsoExpo.

Lemma round_half_even_comp (p q : Q) :
  p == q -> round_half_even p = round_half_even q.
Proof.
  intro E. unfold round_half_even.
  rewrite (Qfloor_comp_Proper p q E).
  assert (Er : p - inject_Z (Qfloor q) == q - inject_Z (Qfloor q))
    by (rewrite E; reflexivity).
  rewrite (Qcompare_comp _ _ Er (1 # 2) (1 # 2) (Qeq_refl _)).
  reflexivity.
Qed.

Lemma round3_zero (q : Q) : q == 0 -> round3 q == 0.
Proof.
  intro E. unfold round3.
  assert (E1000 : q * 1000 == 0) by (rewrite E; reflexivity).
  rewrite (round_half_even_comp _ _ E1000). reflexivity.
Qed.

Lemma to_millions_num (x : Q) :
  to_millions (Num x) = Num (round3 (x / 1000000)).
Proof. reflexivity. Qed.

(** [calculate_exposures] works row by row. *)
Lemma calculate_exposures_rows columns df out :
  calculate_exposures columns df = Some out ->
  forall r e, In (r, e) out -> In r df /\ e = row_exposures r.
Proof.
  unfold calculate_exposures.
  destruct (forallb _ required_columns); [ | discriminate ].
  destruct (Pandas.str_raises _); [ discriminate | ].
  intros [= <-] r e Hin. apply in_map_iff in Hin.
  destruct Hin as [r' [[= -> ->] Hr]]. split; [ exact Hr | reflexivity ].
Qed.

End AbsoExpoFacts.

(** C7: a row whose open interest is 0 gets DEX, GEX, VEX and CEX all
    equal to 0, whatever numbers its delta, gamma, vanna, charm, spot
    price and implied volatility are, and whatever its option type. *)
Theorem C7_zero_open_interest
    (delta gamma vanna charm spotPrice impliedVolatility openInterest : Q)
    (putCall : option string) :
  openInterest == 0 ->
  let e :=
    AbsoExpo.row_exposures
      (AbsoExpo.mkRow (Num delta) (Num gamma) (Num vanna) (Num charm)
                      (Num spotPrice) (Num openInterest) putCall
                      (Num impliedVolatility)) in
  Float.same (AbsoExpo.DEX e) (Num 0)
  /\ Float.same (AbsoExpo.GEX e) (Num 0)
  /\ Float.same (AbsoExpo.VEX e) (Num 0)
  /\ Float.same (AbsoExpo.CEX e) (Num 0).
Proof.
  intros Hoi e. subst e. unfold AbsoExpo.row_exposures.
  cbn [AbsoExpo.delta AbsoExpo.gamma AbsoExpo.vanna AbsoExpo.charm
       AbsoExpo.spotPrice AbsoExpo.openInterest
       AbsoExpo.impliedVolatility
       AbsoExpo.DEX AbsoExpo.GEX AbsoExpo.VEX AbsoExpo.CEX
       Float.mul Float.lift2].
  rewrite !AbsoExpoFacts.to_millions_num.
  assert (Hd : delta * openInterest * spotPrice / 1000000 == 0)
    by (rewrite Hoi; unfold Qdiv; ring).
  assert (Hg : gamma * openInterest * (spotPrice * spotPrice) * 100
               / 1000000 == 0)
    by (rewrite Hoi; unfold Qdiv; ring).
  assert (Hv : vanna * openInterest * spotPrice * impliedVolatility
               / 1000000 == 0)
    by (rewrite Hoi; unfold Qdiv; ring).
  assert (Hc : charm * openInterest * spotPrice * 365 / 1000000 == 0)
    by (rewrite Hoi; unfold Qdiv; ring).
  repeat split.
  - cbn [Float.same]. apply AbsoExpoFacts.round3_zero, Hd.
  - destruct (AbsoExpo.is_put _); cbn [Float.same Float.mul Float.lift2].
    + rewrite (AbsoExpoFacts.round3_zero _ Hg). reflexivity.
    + apply AbsoExpoFacts.round3_zero, Hg.
  - cbn [Float.same]. apply AbsoExpoFacts.round3_zero, Hv.
  - cbn [Float.same]. apply AbsoExpoFacts.round3_zero, Hc.
Qed.

Lemma C7_zero_open_interest_witness :
  let e :=
    AbsoExpo.row_exposures
      (AbsoExpo.mkRow (Num 0.5) (Num 0.01) (Num 0.2) (Num (-0.3))
                      (Num 5000) (Num 0) (Some "PUT"%string) (Num 0.2)) in
  Float.same (AbsoExpo.DEX e) (Num 0)
  /\ Float.same (AbsoExpo.GEX e) (Num 0)
  /\ Float.same (AbsoExpo.VEX e) (Num 0)
  /\ Float.same (AbsoExpo.CEX e) (Num 0).
Proof.
  apply (C7_zero_open_interest 0.5 0.01 0.2 (-0.3) 5000 0.2 0).
  reflexivity.
Defined.

(* ================================================================== *)
(** * Ranking: claims C8 and C10 *)

Module RankingFacts.
Import Ranking.

Lemma In_firstn {A : Type} (n : nat) (l : list A) (x : A) :
  In x (firstn n l) -> In x l.
Proof.
  intro H. rewrite <- (firstn_skipn n l). apply in_or_app. left. exact H.
Qed.

Lemma In_skipn {A : Type} (n : nat) (l : list A) (x : A) :
  In x (skipn n l) -> In x l.
Proof.
  intro H. rewrite <- (firstn_skipn n l). apply in_or_app. right. exact H.
Qed.

(** ** The columns of a labelled bucket *)

Lemma map_combine_seq_snd {A C : Type} (g : A -> C) (l : list A) :
  forall a,
    map (fun ir : nat * A => g (snd ir)) (combine (seq a (List.length l)) l)
    = map g l.
Proof.
  induction l as [ | x l IH ]; intro a; simpl; [ reflexivity | ].
  f_equal. apply IH.
Qed.

Lemma map_combine_seq_fst {A C : Type} (g : nat -> C) (l : list A) :
  forall a,
    map (fun ir : nat * A => g (fst ir)) (combine (seq a (List.length l)) l)
    = map g (seq a (List.length l)).
Proof.
  induction l as [ | x l IH ]; intro a; simpl; [ reflexivity | ].
  f_equal. apply IH.
Qed.

Section Labelled.

Variables (es_multiplier : Q) (side exposure_column : string).
Variable number : nat -> nat.

Lemma pairs_labelled (l : Pandas.series) :
  map (fun r => (strikePrice r, Value r))
      (labelled es_multiplier side exposure_column number l)
  = l.
Proof.
  unfold labelled. rewrite map_map.
  rewrite (map_ext _ (fun ir : nat * (Q * Q) => (fun kv => kv) (snd ir))).
  - rewrite (map_combine_seq_snd (fun kv : Q * Q => kv)). apply map_id.
  - intros [i [k v]]. reflexivity.
Qed.

Lemma strikes_labelled (l : Pandas.series) :
  map strikePrice (labelled es_multiplier side exposure_column number l)
  = map fst l.
Proof.
  rewrite <- (pairs_labelled l) at 2. rewrite map_map. reflexivity.
Qed.

Lemma values_labelled (l : Pandas.series) :
  map Value (labelled es_multiplier side exposure_column number l)
  = map snd l.
Proof.
  rewrite <- (pairs_labelled l) at 2. rewrite map_map. reflexivity.
Qed.

Lemma ranks_labelled (l : Pandas.series) :
  map Rank (labelled es_multiplier side exposure_column number l)
  = map (fun i => rank_label side exposure_column (number i))
        (seq 0 (List.length l)).
Proof.
  unfold labelled. rewrite map_map.
  rewrite (map_ext _ (fun ir : nat * (Q * Q) =>
                        (fun i => rank_label side exposure_column (number i))
                          (fst ir))).
  - apply (map_combine_seq_fst
             (fun i => rank_label side exposure_column (number i))).
  - intros [i [k v]]. reflexivity.
Qed.

Lemma length_labelled (l : Pandas.series) :
  List.length (labelled es_multiplier side exposure_column number l)
  = List.length l.
Proof.
  rewrite <- (length_map strikePrice), strikes_labelled. apply length_map.
Qed.

Lemma In_labelled (l : Pandas.series) (t : RankedLevel) :
  In t (labelled es_multiplier side exposure_column number l) ->
  In (strikePrice t, Value t) l
  /\ Greek t = exposure_column
  /\ exists k, Rank t = rank_label side exposure_column k.
Proof.
  intro H. split; [ | split ].
  - rewrite <- (pairs_labelled l) at 1.
    apply (in_map (fun r => (strikePrice r, Value r))). exact H.
  - unfold labelled in H. apply in_map_iff in H.
    destruct H as [[i [k v]] [<- _]]. reflexivity.
  - unfold labelled in H. apply in_map_iff in H.
    destruct H as [[i [k v]] [<- _]]. exists (number i). reflexivity.
Qed.

End Labelled.

(** ** The aggregated frame *)

Lemma aggregated_permutation (rows : list (Q * Q)) :
  Permutation (Pandas.groupby_sum rows) (aggregated rows).
Proof. apply ValueSort.Permuted_sort. Qed.

Lemma length_aggregated (rows : list (Q * Q)) :
  List.length (aggregated rows) = List.length (Pandas.groupby_sum rows).
Proof.
  symmetry. apply Permutation_length, aggregated_permutation.
Qed.

Lemma aggregated_distinct (rows : list (Q * Q)) :
  Pandas.distinct (map fst (aggregated rows)).
Proof.
  apply (PandasFacts.distinct_permutation
           (map fst (Pandas.groupby_sum rows))).
  - apply Permutation_map, aggregated_permutation.
  - apply PandasFacts.groupby_sum_distinct.
Qed.

Lemma aggregated_sorted (rows : list (Q * Q)) :
  StronglySorted value_ge (aggregated rows).
Proof.
  apply ValueSort.StronglySorted_sort.
  intros a b c Hab Hbc. unfold is_true, ValueDesc.leb in *.
  apply Qle_bool_iff in Hab. apply Qle_bool_iff in Hbc.
  apply Qle_bool_iff. lra.
Qed.

Lemma strongly_sorted_app {A : Type} (R : A -> A -> Prop) (a b : list A) :
  StronglySorted R (a ++ b) ->
  StronglySorted R a /\ StronglySorted R b
  /\ forall x y, In x a -> In y b -> R x y.
Proof.
  induction a as [ | h a IH ]; simpl; intro H.
  - repeat split; [ constructor | exact H | contradiction ].
  - apply StronglySorted_inv in H. destruct H as [Hs Hall].
    destruct (IH Hs) as [Ha [Hb Hab]].
    rewrite Forall_forall in Hall.
    repeat split.
    + constructor; [ exact Ha | ].
      apply Forall_forall. intros x Hx. apply Hall.
      apply in_or_app. left. exact Hx.
    + exact Hb.
    + intros x y [ <- | Hx ] Hy.
      * apply Hall. apply in_or_app. right. exact Hy.
      * apply Hab; assumption.
Qed.

Lemma sorted_descending (l : list (Q * Q)) :
  StronglySorted value_ge l -> descending (map snd l).
Proof.
  induction l as [ | a l IH ]; intro H; [ exact I | ].
  apply StronglySorted_inv in H. destruct H as [Hs Hall].
  destruct l as [ | b l ]; [ exact I | ].
  split; [ | apply IH; exact Hs ].
  apply Forall_inv in Hall. apply Qle_bool_iff. exact Hall.
Qed.

(** ** Counting the strikes two buckets share *)

Lemma filter_none {A : Type} (f : A -> bool) (l : list A) :
  (forall x, In x l -> f x = false) -> filter f l = [].
Proof.
  induction l as [ | a l IH ]; intro H; simpl; [ reflexivity | ].
  rewrite (H a (or_introl eq_refl)). apply IH.
  intros x Hx. apply H. right. exact Hx.
Qed.

Lemma filter_all {A : Type} (f : A -> bool) (l : list A) :
  (forall x, In x l -> f x = true) -> filter f l = l.
Proof.
  induction l as [ | a l IH ]; intro H; simpl; [ reflexivity | ].
  rewrite (H a (or_introl eq_refl)). f_equal. apply IH.
  intros x Hx. apply H. right. exact Hx.
Qed.

Lemma existsb_Qeq_InA (x : Q) (l : list Q) :
  existsb (Qeq_bool x) l = true <-> InA Qeq x l.
Proof.
  rewrite existsb_exists, InA_alt. split; intros [y [H1 H2]]; exists y.
  - split; [ apply Qeq_bool_iff; exact H2 | exact H1 ].
  - split; [ exact H2 | apply Qeq_bool_iff; exact H1 ].
Qed.

Lemma shared_count_app (a b : list Q) (n : nat) :
  Pandas.distinct (a ++ b) ->
  List.length
    (filter (fun k => existsb (Qeq_bool k) b) (firstn n (a ++ b)))
  = Nat.min (n - List.length a) (List.length b).
Proof.
  intro Hd. rewrite firstn_app, filter_app, length_app.
  rewrite filter_none, filter_all.
  - simpl. apply length_firstn.
  - intros x Hx. apply existsb_Qeq_InA. apply In_InA; [ exact Q_Setoid | ].
    apply (In_firstn _ _ _ Hx).
  - intros x Hx. apply In_firstn in Hx.
    destruct (existsb (Qeq_bool x) b) eqn:E; [ | reflexivity ].
    apply existsb_Qeq_InA in E.
    exfalso. apply (PandasFacts.distinct_app_disjoint a b Hd x Hx E).
Qed.

Lemma shared_count (l : list Q) (n : nat) :
  Pandas.distinct l ->
  (List.length l < 2 * n)%nat ->
  List.length
    (filter (fun k => existsb (Qeq_bool k) (skipn (List.length l - n) l))
            (firstn n l))
  = Nat.min (List.length l) (2 * n - List.length l).
Proof.
  intros Hd Hlt.
  set (d := (List.length l - n)%nat).
  pose proof (firstn_skipn d l) as Hsplit.
  assert (Hla : List.length (firstn d l) = d)
    by (apply firstn_length_le; unfold d; lia).
  assert (Hlb : List.length (skipn d l) = (List.length l - d)%nat)
    by apply length_skipn.
  rewrite <- Hsplit in Hd.
  pose proof (shared_count_app _ _ n Hd) as Hc.
  rewrite Hsplit in Hc. rewrite Hc, Hla, Hlb. unfold d. lia.
Qed.

End RankingFacts.

(** C8: with 10 distinct strikes and [top_n = 5] the ranked output splits
    the aggregated rows in two buckets of five; the positive bucket holds
    the five largest values in descending order, the negative bucket the
    five smallest, and the rank labels read "Call G 1" .. "Call G 5" and
    "Put G 5" .. "Put G 1" for the Greek G. *)
Theorem C8_top_five_of_ten (es_multiplier : Q) (rows : list (Q * Q))
    (exposure_column : string) :
  List.length (Pandas.groupby_sum rows) = 10%nat ->
  let top := Ranking.top_levels es_multiplier rows exposure_column 5 in
  let bottom := Ranking.bottom_levels es_multiplier rows exposure_column 5 in
  Permutation
    (map (fun r => (Ranking.strikePrice r, Ranking.Value r)) (top ++ bottom))
    (Pandas.groupby_sum rows)
  /\ List.length top = 5%nat /\ List.length bottom = 5%nat
  /\ Ranking.descending (map Ranking.Value top)
  /\ Ranking.descending (map Ranking.Value bottom)
  /\ (forall t b, In t top -> In b bottom ->
        Ranking.Value b <= Ranking.Value t)
  /\ map Ranking.Rank top
     = map (fun k => "Call " ++ exposure_column ++ " " ++ k)%string
           ["1"; "2"; "3"; "4"; "5"]%string
  /\ map Ranking.Rank bottom
     = map (fun k => "Put " ++ exposure_column ++ " " ++ k)%string
           ["5"; "4"; "3"; "2"; "1"]%string
  /\ Forall (fun r => Ranking.Greek r = exposure_column) (top ++ bottom).
Proof.
  intros Hten top bottom.
  pose proof (RankingFacts.length_aggregated rows) as Hlen.
  rewrite Hten in Hlen.
  pose proof (RankingFacts.aggregated_sorted rows) as Hsorted.
  assert (Htail : Ranking.tail 5 (Ranking.aggregated rows)
                  = skipn 5 (Ranking.aggregated rows))
    by (unfold Ranking.tail; rewrite Hlen; reflexivity).
  pose proof (firstn_skipn 5 (Ranking.aggregated rows)) as Hsplit.
  rewrite <- Hsplit in Hsorted.
  apply RankingFacts.strongly_sorted_app in Hsorted.
  destruct Hsorted as [Htop [Hbottom Hcross]].
  subst top bottom.
  unfold Ranking.top_levels, Ranking.bottom_levels, Ranking.head.
  rewrite Htail.
  refine (conj _ (conj _ (conj _ (conj _ (conj _ (conj _ (conj _
            (conj _ _)))))))).
  - rewrite map_app, !RankingFacts.pairs_labelled, Hsplit.
    apply Permutation_sym, RankingFacts.aggregated_permutation.
  - rewrite RankingFacts.length_labelled, length_firstn, Hlen. reflexivity.
  - rewrite RankingFacts.length_labelled, length_skipn, Hlen. reflexivity.
  - rewrite RankingFacts.values_labelled.
    apply RankingFacts.sorted_descending, Htop.
  - rewrite RankingFacts.values_labelled.
    apply RankingFacts.sorted_descending, Hbottom.
  - intros t b Ht Hb.
    apply RankingFacts.In_labelled in Ht. destruct Ht as [Ht _].
    apply RankingFacts.In_labelled in Hb. destruct Hb as [Hb _].
    specialize (Hcross _ _ Ht Hb).
    apply Qle_bool_iff in Hcross. exact Hcross.
  - rewrite RankingFacts.ranks_labelled, length_firstn, Hlen. reflexivity.
  - rewrite RankingFacts.ranks_labelled, length_skipn, Hlen. reflexivity.
  - apply Forall_app. split; apply Forall_forall; intros r Hr;
      apply RankingFacts.In_labelled in Hr; apply Hr.
Qed.

Lemma C8_top_five_of_ten_witness :
  List.length
    (Ranking.top_levels 0.0012
       [(100, 3); (101, -2); (102, 7); (103, 0); (104, 12);
        (105, -8); (106, 1); (107, 5); (108, -1); (109, 9)] "GEX" 5)
  = 5%nat.
Proof.
  assert (Hten : List.length
                   (Pandas.groupby_sum
                      [(100, 3); (101, -2); (102, 7); (103, 0); (104, 12);
                       (105, -8); (106, 1); (107, 5); (108, -1); (109, 9)])
                 = 10%nat) by (vm_compute; reflexivity).
  exact (proj1 (proj2 (C8_top_five_of_ten 0.0012 _ "GEX" Hten))).
Defined.

(** C10: when the number [m] of distinct strikes is smaller than
    [2 * top_n], the two buckets overlap: [2 * top_n - m] strikes (all
    [m] of them when [m < top_n]) are in both the Call-labelled top list
    and the Put-labelled bottom list, and a row of the top list and a row
    of the bottom list, both part of the combined output for the same
    Greek, never carry the same rank label; so a shared strike appears
    twice with two different labels. *)
Theorem C10_buckets_overlap (es_multiplier : Q) (rows : list (Q * Q))
    (exposure_column : string) (top_n : nat) :
  let m := List.length (Pandas.groupby_sum rows) in
  let top := Ranking.top_levels es_multiplier rows exposure_column top_n in
  let bottom :=
    Ranking.bottom_levels es_multiplier rows exposure_column top_n in
  let ranked :=
    Ranking.rank_exposures es_multiplier rows exposure_column top_n in
  (m < 2 * top_n)%nat ->
  List.length (Ranking.overlap top bottom) = Nat.min m (2 * top_n - m)
  /\ (forall t b, In t top -> In b bottom ->
        In t ranked /\ In b ranked
        /\ Ranking.Greek t = Ranking.Greek b
        /\ Ranking.Rank t <> Ranking.Rank b)
  /\ ((0 < m)%nat ->
        exists t b, In t top /\ In b bottom
                    /\ Ranking.strikePrice t == Ranking.strikePrice b).
Proof.
  intros m top bottom ranked Hm.
  assert (Hcount : List.length (Ranking.overlap top bottom)
                   = Nat.min m (2 * top_n - m)).
  { subst top bottom. unfold Ranking.overlap, Ranking.top_levels,
      Ranking.bottom_levels, Ranking.head, Ranking.tail.
    rewrite !RankingFacts.strikes_labelled.
    rewrite <- firstn_map, <- skipn_map.
    rewrite <- (length_map fst (Ranking.aggregated rows)).
    pose proof (RankingFacts.length_aggregated rows) as Hlen.
    rewrite <- (length_map fst) in Hlen.
    rewrite RankingFacts.shared_count.
    - rewrite Hlen. reflexivity.
    - apply RankingFacts.aggregated_distinct.
    - rewrite Hlen. exact Hm. }
  split; [ exact Hcount | split ].
  - intros t b Ht Hb.
    split; [ apply in_or_app; left; exact Ht | ].
    split; [ apply in_or_app; right; exact Hb | ].
    destruct (RankingFacts.In_labelled _ _ _ _ _ _ Ht)
      as [_ [Hgt [kt Hrt]]].
    destruct (RankingFacts.In_labelled _ _ _ _ _ _ Hb)
      as [_ [Hgb [kb Hrb]]].
    split; [ rewrite Hgt, Hgb; reflexivity | ].
    rewrite Hrt, Hrb. unfold Ranking.rank_label.
    cbn [String.append]. discriminate.
  - intro Hpos.
    destruct (Ranking.overlap top bottom) as [ | k rest ] eqn:E.
    + simpl in Hcount. lia.
    + assert (Hk : In k (Ranking.overlap top bottom))
        by (rewrite E; left; reflexivity).
      unfold Ranking.overlap in Hk. apply filter_In in Hk.
      destruct Hk as [Hkt Hkb].
      apply in_map_iff in Hkt. destruct Hkt as [t [<- Ht]].
      apply existsb_exists in Hkb. destruct Hkb as [kb [Hkb Heq]].
      apply in_map_iff in Hkb. destruct Hkb as [b [<- Hb]].
      exists t, b. split; [ exact Ht | split; [ exact Hb | ] ].
      apply Qeq_bool_iff. exact Heq.
Qed.

Lemma C10_buckets_overlap_witness :
  List.length
    (Ranking.overlap
       (Ranking.top_levels 0.0012
          [(100, 3); (101, -2); (102, 7); (103, 0); (104, 12);
           (105, -8); (106, 1)] "GEX" 5)
       (Ranking.bottom_levels 0.0012
          [(100, 3); (101, -2); (102, 7); (103, 0); (104, 12);
           (105, -8); (106, 1)] "GEX" 5))
  = Nat.min 7 (2 * 5 - 7).
Proof.
  assert (Hm : (List.length
                  (Pandas.groupby_sum
                     [(100, 3); (101, -2); (102, 7); (103, 0); (104, 12);
                      (105, -8); (106, 1)]%Q) < 2 * 5)%nat)
    by (vm_compute; lia).
  exact (proj1 (C10_buckets_overlap 0.0012 _ "GEX" 5 Hm)).
Defined.

(* ================================================================== *)
(** * The solvers: claims C2, C3, C5 and C9 *)

Module CoarseFacts.
Import Coarse.

Lemma bisect_in_bracket (fuel : nat) (f : float -> result float) :
  forall a b, a <= b -> a <= bisect fuel f a b <= b.
Proof.
  induction fuel as [ | fuel IH ]; intros a b Hab; simpl.
  - split; [ apply Qle_refl | exact Hab ].
  - assert (Hm : a <= (a + b) / 2 <= b).
    { split.
      - apply Qle_shift_div_l; [ reflexivity | lra ].
      - apply Qle_shift_div_r; [ reflexivity | lra ]. }
    destruct (brackets _ _).
    + destruct (IH a ((a + b) / 2) (proj1 Hm)) as [H1 H2]. split; lra.
    + destruct (IH ((a + b) / 2) b (proj2 Hm)) as [H1 H2]. split; lra.
Qed.

(** The coarse instance keeps scipy's promise about [brentq]. *)
Lemma scipy_laws : ScipyLaws scipy.
Proof.
  constructor. intros f a b xtol x.
  change (brentq f (Num a) (Num b) xtol)
    with (bisect_brentq f (Num a) (Num b) xtol).
  unfold bisect_brentq.
  destruct (Qle_bool a b) eqn:Hab; cbn [andb]; [ | discriminate ].
  destruct (brackets _ _); [ | discriminate ].
  apply Qle_bool_iff in Hab.
  generalize (bisect_in_bracket 24 f a b Hab).
  generalize (bisect 24 f a b). intros root Hroot [= <-].
  exists root. split; [ reflexivity | exact Hroot ].
Qed.

End CoarseFacts.

Section Solvers.

Context {sp : Scipy}.

(** ** What the two root finders can return *)

Lemma grok_iv_range (price S K T r : float) (option_type : string) (q : Q) :
  Grok.implied_volatility price S K T r option_type = Ok (Num q) ->
  0 < q <= 10.
Proof.
  unfold Grok.implied_volatility. cbv zeta.
  destruct (newton _ _ _ _ _) as [ [ | x ] | e ].
  - cbn [Float.ltb Float.leb orb]. discriminate.
  - cbn [Float.ltb Float.leb].
    destruct (Qlt_bool 10 x) eqn:E1; [ discriminate | ].
    destruct (Qle_bool x 0) eqn:E2; [ discriminate | ].
    cbn [orb]. intros [= <-].
    apply Qlt_bool_false in E1. apply Qle_bool_false in E2.
    split; assumption.
  - destruct e; discriminate.
Qed.

Lemma brent_iv_range {laws : ScipyLaws sp} (market_price S K T r : float)
    (option_type : string) (x : float) :
  BrentBS.calculate_implied_volatility market_price S K T r option_type
  = Some x ->
  exists q, x = Num q /\ 1e-6 <= q <= 10.
Proof.
  unfold BrentBS.calculate_implied_volatility. cbv zeta.
  destruct (_ || _); [ discriminate | ].
  destruct (brentq _ _ _ _) as [ root | e ] eqn:E; [ | discriminate ].
  intros [= <-]. apply (brentq_in_bracket _ _ _ _ _ E).
Qed.

Lemma brent_rejects_nonpositive_price (price : Q) (S K T r : float)
    (option_type : string) :
  price <= 0 ->
  BrentBS.calculate_implied_volatility (Num price) S K T r option_type = None.
Proof.
  intro Hp. unfold BrentBS.calculate_implied_volatility.
  replace (Num price <=? Num 0)%F with true
    by (symmetry; apply Qle_bool_iff; exact Hp).
  rewrite orb_true_r. reflexivity.
Qed.

Lemma closed_form_rejects_nonpositive_price (price : Q) (S K T r : float)
    (option_type : string) :
  price <= 0 ->
  HybridOne.closed_form_iv S K T r option_type (Num price) = NaN.
Proof.
  intro Hp. unfold HybridOne.closed_form_iv.
  replace (Num price <=? Num 0)%F with true
    by (symmetry; apply Qle_bool_iff; exact Hp).
  reflexivity.
Qed.

Lemma Qeq_bool_nonzero (q : Q) : ~ q == 0 -> Qeq_bool q 0 = false.
Proof.
  intro H. destruct (Qeq_bool q 0) eqn:E; [ | reflexivity ].
  apply Qeq_bool_iff in E. contradiction.
Qed.

(** A selected market price that is not positive trips the guard of
    [process_row]. *)
Lemma guard_on_nonpositive_price (price : Q) (a b c d : cell) :
  price <= 0 ->
  existsb IV.none_or_nonpositive [a; b; c; d; Some (Num price)] = true.
Proof.
  intro Hp. apply existsb_exists. exists (Some (Num price)). split.
  - do 4 right. left. reflexivity.
  - apply Qle_bool_iff. exact Hp.
Qed.

(** ** The closed-form estimate at or below intrinsic value *)

Lemma closed_form_at_intrinsic (S K T r price : Q) (option_type : string) :
  0 < S -> 0 < K -> 0 < T -> 0 < price ->
  price <= IV.intrinsic_value option_type S K ->
  HybridOne.closed_form_iv (Num S) (Num K) (Num T) (Num r) option_type
                           (Num price)
  = Num 0.
Proof.
  intros HS HK HT Hp Hin.
  unfold HybridOne.closed_form_iv, IV.intrinsic_value in *.
  cbn [Float.leb].
  rewrite (proj2 (Qle_bool_false price 0) Hp).
  rewrite (proj2 (Qle_bool_false S 0) HS).
  rewrite (proj2 (Qle_bool_false K 0) HK).
  rewrite (proj2 (Qle_bool_false T 0) HT).
  cbn [orb]. cbv zeta.
  assert (Hfloor : forall x, price <= Qmax 0 x ->
            (Num price <=? Float.py_max (Num 0) (Num x))%F = true).
  { intros x Hx. unfold Float.py_max. cbn [Float.ltb].
    destruct (Qlt_bool 0 x) eqn:E; cbn [Float.leb]; apply Qle_bool_iff.
    - apply Qlt_bool_iff in E.
      rewrite (Q.max_r 0 x) in Hx; [ exact Hx | lra ].
    - apply Qlt_bool_false in E.
      rewrite (Q.max_l 0 x) in Hx; [ exact Hx | exact E ]. }
  cbn [Float.leb] in Hfloor.
  destruct (String.eqb (upper option_type) "CALL");
    cbn [Float.sub Float.lift2]; rewrite (Hfloor _ Hin); reflexivity.
Qed.

Lemma refine_from_zero {laws : ScipyLaws sp} (S K T r observed_price : float)
    (option_type : string) :
  let refined_iv :=
    HybridOne.refine_iv S K T r option_type observed_price (Num 0) in
  refined_iv = Num 0
  \/ exists q, refined_iv = Num q /\ 1e-6 <= q <= 1.
Proof.
  cbv zeta. unfold HybridOne.refine_iv. cbv zeta.
  change (Float.py_max (Num 1e-6) (Num 0 * Num 0.5)%F) with (Num 1e-6).
  change (Float.py_min (Num 5) (Float.py_max (Num 1) (Num 0 * Num 1.5)%F))
    with (Num 1).
  destruct (brentq _ _ _ _) as [ root | e ] eqn:E.
  - right. apply (brentq_in_bracket _ _ _ _ _ E).
  - left. reflexivity.
Qed.

End Solvers.

(** C2, as stated, fails.  First, the derivative-guided and the
    bracketing strategy have no intrinsic-value rule: whatever scipy's
    root finders do, they cannot return 0.0 for a call on spot 110,
    strike 100, T = 0.1, rate 0.05 priced at 5, below its intrinsic
    value 10.  Second, with T = 0 the closed-form estimate itself
    answers NaN for that contract. *)
Lemma C2_zero_is_not_returned_by_every_strategy :
  ~ (forall (sp : Scipy), ScipyLaws sp ->
     forall (S K T r price : Q) (option_type : string),
       0 < price -> price <= IV.intrinsic_value option_type S K ->
       (exists x, BrentBS.calculate_implied_volatility
                    (Num price) (Num S) (Num K) (Num T) (Num r) option_type
                  = Some x /\ IV.is_zero x = true)
       /\ (exists x, Grok.implied_volatility
                       (Num price) (Num S) (Num K) (Num T) (Num r)
                       option_type
                     = Ok x /\ IV.is_zero x = true))
  /\ 0 < 5 <= IV.intrinsic_value "CALL" 110 100
  /\ HybridOne.closed_form_iv (sp := Coarse.scipy)
       (Num 110) (Num 100) (Num 0) (Num 0.05) "CALL" (Num 5) = NaN.
Proof.
  split; [ | split; [ split | ] ].
  - intro H.
    assert (Hp : 0 < 5) by reflexivity.
    assert (Hi : 5 <= IV.intrinsic_value "CALL" 110 100)
      by (vm_compute; discriminate).
    destruct (H Coarse.scipy CoarseFacts.scipy_laws 110 100 0.1 0.05 5
                "CALL"%string Hp Hi) as [_ [x [Hx Hz]]].
    destruct x as [ | q ]; [ discriminate Hz | ].
    apply grok_iv_range in Hx.
    unfold IV.is_zero in Hz. cbn [Float.eqb] in Hz.
    apply Qeq_bool_iff in Hz. lra.
  - reflexivity.
  - vm_compute. discriminate.
  - reflexivity.
Qed.

(** C2, amended: for every contract with positive spot, strike and time
    to expiry whose observed price is positive but at or below intrinsic
    value, the closed-form estimate of the closed-form + refinement
    strategy is exactly 0.0, and the refinement keeps 0.0 unless the
    bracketing solver finds a root in [1e-6, 1].  The bracketing strategy
    has no intrinsic-value rule: it fails or returns a value in
    [1e-6, 10]; the derivative-guided strategy returns a failure or a
    value in (0, 10]. *)
Theorem C2_intrinsic_value_policy {sp : Scipy} {laws : ScipyLaws sp}
    (S K T r price : Q) (option_type : string) :
  0 < S -> 0 < K -> 0 < T -> 0 < price ->
  price <= IV.intrinsic_value option_type S K ->
  HybridOne.closed_form_iv (Num S) (Num K) (Num T) (Num r) option_type
                           (Num price)
  = Num 0
  /\ (HybridOne.refine_iv (Num S) (Num K) (Num T) (Num r) option_type
                          (Num price) (Num 0)
      = Num 0
      \/ exists q,
           HybridOne.refine_iv (Num S) (Num K) (Num T) (Num r) option_type
                               (Num price) (Num 0)
           = Num q
           /\ 1e-6 <= q <= 1)
  /\ (BrentBS.calculate_implied_volatility
        (Num price) (Num S) (Num K) (Num T) (Num r) option_type
      = None
      \/ exists q,
           BrentBS.calculate_implied_volatility
             (Num price) (Num S) (Num K) (Num T) (Num r) option_type
           = Some (Num q)
           /\ 1e-6 <= q <= 10)
  /\ (forall q,
        Grok.implied_volatility
          (Num price) (Num S) (Num K) (Num T) (Num r) option_type
        = Ok (Num q) ->
        0 < q <= 10).
Proof.
  intros HS HK HT Hp Hin.
  split; [ apply closed_form_at_intrinsic; assumption | ].
  split; [ apply refine_from_zero | ].
  split.
  - destruct (BrentBS.calculate_implied_volatility _ _ _ _ _ _)
      as [ x | ] eqn:E; [ right | left; reflexivity ].
    destruct (brent_iv_range _ _ _ _ _ _ _ E) as [q [-> Hq]].
    exists q. split; [ reflexivity | exact Hq ].
  - intros q Hq. apply (grok_iv_range _ _ _ _ _ _ _ Hq).
Qed.

Lemma C2_intrinsic_value_policy_witness :
  HybridOne.closed_form_iv (sp := Coarse.scipy)
    (Num 110) (Num 100) (Num 0.1) (Num 0.05) "CALL" (Num 5)
  = Num 0.
Proof.
  assert (Hi : 5 <= IV.intrinsic_value "CALL" 110 100)
    by (vm_compute; discriminate).
  exact (proj1 (C2_intrinsic_value_policy (sp := Coarse.scipy)
                  (laws := CoarseFacts.scipy_laws)
                  110 100 0.1 0.05 5 "CALL"
                  eq_refl eq_refl eq_refl eq_refl Hi)).
Defined.

(** C3, as stated, fails: the bracketing script reads the last price
    even when mid and mark are there; [mid or mark or last] passes over
    a mid of zero; and it keeps an empty mid cell, where the first
    available field is the mark. *)
Lemma C3_last_only_zero_mid_and_empty_mid :
  IV.first_available [Some (Num 1); Some (Num 2); Some (Num 3)]
  = Some (Num 1)
  /\ BrentBS.market_price
       (IV.mkRow (Some (Num 110)) (Some (Num 100)) (Some (Num 0.1))
                 (Some (Num 0.05)) (Some "CALL"%string)
                 (Some (Num 1)) (Some (Num 2)) (Some (Num 3)))
     = Some (Num 3)
  /\ IV.first_available [Some (Num 0); Some (Num 2); Some (Num 3)]
     = Some (Num 0)
  /\ Grok.market_price
       (IV.mkRow (Some (Num 110)) (Some (Num 100)) (Some (Num 0.1))
                 (Some (Num 0.05)) (Some "CALL"%string)
                 (Some (Num 0)) (Some (Num 2)) (Some (Num 3)))
     = Some (Num 2)
  /\ IV.first_available [Some NaN; Some (Num 2); Some (Num 3)]
     = Some (Num 2)
  /\ Grok.market_price
       (IV.mkRow (Some (Num 110)) (Some (Num 100)) (Some (Num 0.1))
                 (Some (Num 0.05)) (Some "CALL"%string)
                 (Some NaN) (Some (Num 2)) (Some (Num 3)))
     = Some NaN.
Proof.
  repeat split.
Qed.

(** C3, amended: the bracketing script always uses the last field.  The
    derivative-guided and the closed-form script select the market
    price with [mid or mark or last], the first of mid and mark that is
    there and not zero (an empty cell counts as there), and last
    otherwise.  This is the first available of mid, mark and last, in
    that order, exactly when the first of mid and mark that is not
    absent is a number other than zero, or both are absent and last is
    not an empty cell, or each of mid and mark is absent or zero, one
    of them at least is zero, and last is zero too. *)
Theorem C3_market_price_selection (row : IV.Row) :
  BrentBS.market_price row = IV.last row
  /\ HybridOne.market_price row = Grok.market_price row
  /\ (IV.same_price
        (Grok.market_price row)
        (IV.first_available [IV.mid row; IV.mark row; IV.last row])
      <-> IV.or_takes_first_available (IV.mid row) (IV.mark row)
                                      (IV.last row)
          = true).
Proof.
  split; [ reflexivity | split; [ reflexivity | ] ].
  unfold Grok.market_price, IV.py_or, IV.or_takes_first_available.
  destruct (IV.mid row) as [ [ | q1 ] | ],
           (IV.mark row) as [ [ | q2 ] | ],
           (IV.last row) as [ [ | q3 ] | ];
    repeat match goal with
      | q : Q |- _ =>
          lazymatch goal with
          | _ : Qeq_bool q 0 = _ |- _ => fail
          | _ => destruct (Qeq_bool q 0) eqn:?
          end
      end;
    repeat (cbn [IV.truthy IV.first_available IV.available IV.isnull negb
                 IV.content_of];
            match goal with
            | H : Qeq_bool _ _ = _ |- _ => rewrite H
            end);
    cbn [IV.truthy IV.first_available IV.available IV.isnull negb
         IV.content_of IV.same_price Float.same];
    repeat match goal with
      | H : Qeq_bool _ _ = true |- _ => apply Qeq_bool_iff in H
      | H : Qeq_bool _ _ = false |- _ => apply Qeq_bool_neq in H
      end;
    split; intro H;
    first [ reflexivity | discriminate H | exact I | contradiction
          | lra
          | (exfalso; lra) ].
Qed.

Lemma C3_market_price_selection_witness :
  IV.same_price
    (Grok.market_price
       (IV.mkRow (Some (Num 110)) (Some (Num 100)) (Some (Num 0.1))
                 (Some (Num 0.05)) (Some "CALL"%string)
                 (Some (Num 5)) (Some NaN) (Some (Num 3))))
    (IV.first_available [Some (Num 5); Some NaN; Some (Num 3)]).
Proof.
  apply (proj2 (proj2 (proj2 (C3_market_price_selection
                   (IV.mkRow (Some (Num 110)) (Some (Num 100))
                             (Some (Num 0.1)) (Some (Num 0.05))
                             (Some "CALL"%string)
                             (Some (Num 5)) (Some NaN) (Some (Num 3))))))).
  reflexivity.
Defined.

(** C5, what the code computes: for 0 < T < 1e-6 and sigma > 0 the
    bracketing script's Greeks have gamma = 1e-5 and a delta that is 1
    whenever S > K, for calls and for puts alike; when S is not above K
    delta is 0 for a call and -1 for any other option type.  The
    conditional expression groups as
    [1.0 if S > K else (0.0 if option_type == "CALL" else -1.0)]. *)
Theorem C5_near_expiry_greeks {sp : Scipy} (S K r : float) (T sigma : Q)
    (option_type : string) :
  0 < T -> T < 1e-6 -> 0 < sigma ->
  IV.gamma (BrentBS.calculate_greeks S K (Num T) r (Num sigma) option_type)
  = Some (Num 1e-5)
  /\ IV.delta (BrentBS.calculate_greeks S K (Num T) r (Num sigma)
                                        option_type)
     = Some (if (K <? S)%F then Num 1
             else if String.eqb option_type "CALL" then Num 0
                  else Num (-1)).
Proof.
  intros HT Hnear Hsigma. unfold BrentBS.calculate_greeks.
  cbn [Float.leb Float.ltb].
  rewrite (proj2 (Qle_bool_false T 0) HT).
  rewrite (proj2 (Qle_bool_false sigma 0) Hsigma).
  rewrite (proj2 (Qlt_bool_iff T 1e-6) Hnear).
  cbn [orb]. cbv zeta. cbn [IV.gamma IV.delta].
  split; reflexivity.
Qed.

(** The failing input of C5: a put with S = 110 above K = 100 and
    T = 5e-7 gets delta = 1.0, where a put's delta should be 0. *)
Lemma C5_near_expiry_greeks_witness :
  IV.gamma (BrentBS.calculate_greeks (sp := Coarse.scipy)
              (Num 110) (Num 100) (Num 5e-7) (Num 0.05) (Num 0.2) "PUT")
  = Some (Num 1e-5)
  /\ IV.delta (BrentBS.calculate_greeks (sp := Coarse.scipy)
                 (Num 110) (Num 100) (Num 5e-7) (Num 0.05) (Num 0.2) "PUT")
     = Some (Num 1).
Proof.
  exact (C5_near_expiry_greeks (sp := Coarse.scipy)
           (Num 110) (Num 100) (Num 0.05) 5e-7 0.2 "PUT"
           eq_refl eq_refl eq_refl).
Defined.

(** C9: a market price that is zero or negative never yields a numeric
    implied volatility.  The bracketing solver returns [None], the
    closed-form estimate [nan], and each of the three scripts drops a
    row whose selected market price is not positive. *)
Theorem C9_nonpositive_price_fails {sp : Scipy} (price : Q) :
  price <= 0 ->
  (forall S K T r option_type,
     BrentBS.calculate_implied_volatility (Num price) S K T r option_type
     = None)
  /\ (forall S K T r option_type,
        HybridOne.closed_form_iv S K T r option_type (Num price) = NaN)
  /\ (forall row,
        BrentBS.market_price row = Some (Num price) ->
        BrentBS.process_row row = None)
  /\ (forall row,
        Grok.market_price row = Some (Num price) ->
        Grok.process_row row = None)
  /\ (forall row,
        HybridOne.market_price row = Some (Num price) ->
        HybridOne.process_row row = None).
Proof.
  intro Hp.
  split; [ intros; apply brent_rejects_nonpositive_price; exact Hp | ].
  split; [ intros; apply closed_form_rejects_nonpositive_price; exact Hp | ].
  split; [ | split ].
  - intros row Hrow. unfold BrentBS.process_row. cbv zeta. rewrite Hrow.
    destruct (existsb _ _); [ reflexivity | ].
    destruct (IV.spotPrice row), (IV.strikePrice row), (IV.T row),
      (IV.SOFR row); try reflexivity.
    rewrite brent_rejects_nonpositive_price by exact Hp. reflexivity.
  - intros row Hrow. unfold Grok.process_row. cbv zeta. rewrite Hrow.
    rewrite guard_on_nonpositive_price by exact Hp. reflexivity.
  - intros row Hrow. unfold HybridOne.process_row. cbv zeta. rewrite Hrow.
    rewrite guard_on_nonpositive_price by exact Hp. reflexivity.
Qed.

Lemma C9_nonpositive_price_fails_witness :
  BrentBS.calculate_implied_volatility (sp := Coarse.scipy)
    (Num (-1)) (Num 110) (Num 100) (Num 0.1) (Num 0.05) "CALL"
  = None
  /\ Grok.process_row (sp := Coarse.scipy)
       (IV.mkRow (Some (Num 110)) (Some (Num 100)) (Some (Num 0.1))
                 (Some (Num 0.05)) (Some "CALL"%string)
                 (Some (Num 0)) (Some (Num 0)) (Some (Num 0)))
     = None.
Proof.
  split.
  - refine (proj1 (C9_nonpositive_price_fails (sp := Coarse.scipy) (-1) _)
              _ _ _ _ _).
    discriminate.
  - refine (proj1 (proj2 (proj2 (proj2
              (C9_nonpositive_price_fails (sp := Coarse.scipy) 0 _)))) _ _).
    + discriminate.
    + reflexivity.
Defined.

(* ================================================================== *)
(** * Further properties of the gamma flip *)

Module FlipFacts.
Import Ratio Flip.

Lemma map_fst_combine {A B : Type} (l1 : list A) :
  forall l2 : list B,
    List.length l1 = List.length l2 -> map fst (combine l1 l2) = l1.
Proof.
  induction l1 as [ | a l1 IH ]; intros [ | b l2 ] H; simpl in *;
    try discriminate; [ reflexivity | ].
  f_equal. apply IH. lia.
Qed.

Lemma levels_cumulative_gex (s : series) :
  map fst (cumulative_gex s) = levels s.
Proof.
  unfold cumulative_gex. apply map_fst_combine.
  unfold levels, totalGamma, cumsum.
  destruct s as [ | [k v] t ]; simpl; [ reflexivity | ].
  rewrite RatioFacts.length_cumsum_from, !length_map. reflexivity.
Qed.

(** The interpolation fraction, freed of its division. *)
Lemma fraction_spec (pc c : Q) :
  ~ pc - c == 0 -> (pc / (pc - c)) * (pc - c) == pc.
Proof.
  intro H. field. exact H.
Qed.

Lemma interpolate_strictly_between (pk pc k c : Q) :
  0 < pc -> c < 0 -> k < pk ->
  k < interpolate pk pc k c < pk.
Proof.
  intros Hpc Hc Hk. unfold interpolate.
  assert (Hd : ~ pc - c == 0) by (intro E; lra).
  pose proof (fraction_spec pc c Hd) as Hf.
  set (f := pc / (pc - c)) in *.
  assert (Hf01 : 0 < f < 1) by (split; nra).
  split; nra.
Qed.

Lemma interpolate_between (pk pc k c : Q) :
  sign pc <> sign c -> k < pk ->
  k <= interpolate pk pc k c <= pk.
Proof.
  intros Hs Hk. unfold interpolate.
  destruct (RatioFacts.sign_cases pc) as [[Hp Pp] | [[Hp Pp] | [Hp Pp]]];
    destruct (RatioFacts.sign_cases c) as [[Hc Pc] | [[Hc Pc] | [Hc Pc]]];
    try (exfalso; apply Hs; congruence).
  all: assert (Hd : ~ pc - c == 0) by (intro E; lra).
  all: pose proof (fraction_spec pc c Hd) as Hf.
  all: set (f := pc / (pc - c)) in *.
  all: assert (Hf01 : 0 <= f <= 1) by (split; nra).
  all: split; nra.
Qed.

(** Where the iterative loop stops. *)
Lemma cum_loop_found (items : series) :
  forall prev v,
    cum_loop prev items = Some v ->
    exists pre pk pc k c post,
      (match prev with Some p => p :: items | None => items end)
      = pre ++ (pk, pc) :: (k, c) :: post
      /\ 0 < pc /\ c < 0 /\ v = interpolate pk pc k c.
Proof.
  induction items as [ | [k c] rest IH ]; intros prev v H; [ discriminate | ].
  cbn [cum_loop] in H.
  destruct prev as [ [pk pc] | ].
  - destruct (Qlt_bool 0 pc && Qlt_bool c 0) eqn:E.
    + apply andb_true_iff in E. destruct E as [E1 E2].
      apply Qlt_bool_iff in E1. apply Qlt_bool_iff in E2.
      injection H as <-.
      exists [], pk, pc, k, c, rest. repeat split; assumption.
    + destruct (IH _ _ H) as (pre & pk' & pc' & k' & c' & post & E' & R).
      exists ((pk, pc) :: pre), pk', pc', k', c', post.
      split; [ simpl; rewrite E'; reflexivity | exact R ].
  - destruct (IH _ _ H) as (pre & pk' & pc' & k' & c' & post & E' & R).
    exists pre, pk', pc', k', c', post. split; [ exact E' | exact R ].
Qed.

(** Where the vectorized scan stops. *)
Lemma vec_loop_found (items : series) :
  forall prev v,
    vec_loop prev items = Some v ->
    exists pre pk pc k c post,
      prev :: items = pre ++ (pk, pc) :: (k, c) :: post
      /\ sign pc <> sign c /\ v = interpolate pk pc k c.
Proof.
  induction items as [ | [k c] rest IH ]; intros [pk pc] v H;
    [ discriminate | ].
  cbn [vec_loop fst snd] in H.
  destruct (sign pc =? sign c)%Z eqn:E.
  - destruct (IH _ _ H) as (pre & pk' & pc' & k' & c' & post & E' & R).
    exists ((pk, pc) :: pre), pk', pc', k', c', post.
    split; [ simpl; rewrite E'; reflexivity | exact R ].
  - apply Z.eqb_neq in E. injection H as <-.
    exists [], pk, pc, k, c, rest. repeat split; assumption.
Qed.

(** ** The strikes of [gex_by_strike] fall *)

Lemma strongly_sorted_rev (l : list Q) :
  StronglySorted Qlt l -> falling (rev l).
Proof.
  unfold falling. induction 1 as [ | a l Hs IH Hall ]; simpl.
  - constructor.
  - assert (G : forall l1, StronglySorted (fun a b => b < a) l1 ->
                Forall (fun x => a < x) l1 ->
                StronglySorted (fun a b => b < a) (l1 ++ [a])).
    { induction 1 as [ | x l1 Hs1 IH1 Hall1 ]; intro Hl; simpl.
      - repeat constructor.
      - constructor.
        + apply IH1. apply (Forall_inv_tail Hl).
        + apply Forall_app. split; [ exact Hall1 | ].
          constructor; [ apply (Forall_inv Hl) | constructor ]. }
    apply G; [ exact IH | ].
    apply Forall_rev. exact Hall.
Qed.

Lemma gex_by_strike_falling (rows : list (Q * Q)) :
  falling (levels (gex_by_strike rows)).
Proof.
  unfold levels, gex_by_strike. rewrite map_rev.
  apply strongly_sorted_rev.
  apply Sorted_StronglySorted.
  - intros x y z. apply Qlt_trans.
  - apply PandasFacts.groupby_sum_sorted.
Qed.

Lemma falling_adjacent (pre post : list Q) (k1 k2 : Q) :
  falling (pre ++ k1 :: k2 :: post) -> k2 < k1.
Proof.
  intro H. apply RankingFacts.strongly_sorted_app in H.
  destruct H as [_ [H _]]. apply StronglySorted_inv in H.
  destruct H as [_ H]. apply (Forall_inv H).
Qed.

Lemma adjacent_levels (s : series) pre pk pc k c post :
  cumulative_gex s = pre ++ (pk, pc) :: (k, c) :: post ->
  levels s = map fst pre ++ pk :: k :: map fst post.
Proof.
  intro E. rewrite <- levels_cumulative_gex, E, map_app. reflexivity.
Qed.

(** ** The vectorized scan finds whatever the iterative loop finds *)

Lemma cum_loop_below (items : series) :
  forall pk pc v,
    falling (pk :: map fst items) ->
    cum_loop (Some (pk, pc)) items = Some v ->
    v < pk.
Proof.
  induction items as [ | [k c] rest IH ]; intros pk pc v Hf H;
    [ discriminate | ].
  cbn [cum_loop] in H. cbn [map fst] in Hf.
  assert (Hk : k < pk).
  { apply StronglySorted_inv in Hf. destruct Hf as [_ Hf].
    apply (Forall_inv Hf). }
  assert (Hrest : falling (k :: map fst rest))
    by (apply StronglySorted_inv in Hf; apply Hf).
  destruct (Qlt_bool 0 pc && Qlt_bool c 0) eqn:E.
  - apply andb_true_iff in E. destruct E as [E1 E2].
    apply Qlt_bool_iff in E1. apply Qlt_bool_iff in E2.
    injection H as <-.
    apply (interpolate_strictly_between pk pc k c E1 E2 Hk).
  - specialize (IH _ _ _ Hrest H). lra.
Qed.

Lemma vec_loop_covers (items : series) :
  forall pk pc v,
    falling (pk :: map fst items) ->
    cum_loop (Some (pk, pc)) items = Some v ->
    exists w, vec_loop (pk, pc) items = Some w /\ v <= w.
Proof.
  induction items as [ | [k c] rest IH ]; intros pk pc v Hf H;
    [ discriminate | ].
  cbn [map fst] in Hf.
  assert (Hk : k < pk).
  { apply StronglySorted_inv in Hf. destruct Hf as [_ Hf].
    apply (Forall_inv Hf). }
  assert (Hrest : falling (k :: map fst rest))
    by (apply StronglySorted_inv in Hf; apply Hf).
  cbn [vec_loop fst snd].
  destruct (sign pc =? sign c)%Z eqn:Es.
  - (* no change of sign here: both scans move on *)
    apply Z.eqb_eq in Es. cbn [cum_loop] in H.
    destruct (Qlt_bool 0 pc && Qlt_bool c 0) eqn:E.
    + apply andb_true_iff in E. destruct E as [E1 E2].
      apply Qlt_bool_iff, RatioFacts.sign_pos in E1.
      apply Qlt_bool_iff, RatioFacts.sign_neg in E2. lia.
    + apply IH; assumption.
  - (* the vectorized scan stops here *)
    apply Z.eqb_neq in Es.
    exists (interpolate pk pc k c). split; [ reflexivity | ].
    pose proof (interpolate_between pk pc k c Es Hk) as [Hlo _].
    cbn [cum_loop] in H.
    destruct (Qlt_bool 0 pc && Qlt_bool c 0).
    + injection H as <-. apply Qle_refl.
    + pose proof (cum_loop_below _ _ _ _ Hrest H). lra.
Qed.

(** ** Agreement without monotonicity *)

Lemma loops_equal (items : series) :
  forall pk pc,
    0 < pc ->
    Forall (fun kc => ~ snd kc == 0) items ->
    cum_loop (Some (pk, pc)) items = vec_loop (pk, pc) items.
Proof.
  induction items as [ | [k c] rest IH ]; intros pk pc Hpc Hnz;
    [ reflexivity | ].
  pose proof (Forall_inv Hnz) as Hc. cbn [snd] in Hc.
  pose proof (Forall_inv_tail Hnz) as Hrest.
  cbn [cum_loop vec_loop fst snd].
  replace (Qlt_bool 0 pc) with true by (symmetry; now apply Qlt_bool_iff).
  cbn [andb].
  destruct (RatioFacts.sign_cases c) as [[Hs Pc] | [[Hs Pc] | [Hs Pc]]].
  - replace (Qlt_bool c 0) with false
      by (symmetry; apply Qlt_bool_false; lra).
    replace (sign pc =? sign c)%Z with true.
    + apply IH; assumption.
    + symmetry. apply Z.eqb_eq. apply RatioFacts.sign_pos in Hpc. lia.
  - contradiction.
  - replace (Qlt_bool c 0) with true by (symmetry; now apply Qlt_bool_iff).
    replace (sign pc =? sign c)%Z with false; [ reflexivity | ].
    symmetry. apply Z.eqb_neq. apply RatioFacts.sign_pos in Hpc. lia.
Qed.

(** ** Totals *)

Lemma total_app (a b : list Q) : total (a ++ b) == total a + total b.
Proof.
  induction a as [ | x a IH ]; simpl; [ ring | rewrite IH; ring ].
Qed.

Lemma total_rev (l : list Q) : total (rev l) == total l.
Proof.
  induction l as [ | x l IH ]; simpl; [ reflexivity | ].
  rewrite total_app, IH. simpl. ring.
Qed.

Lemma total_insert_group (k v : Q) (s : series) :
  total (map snd (Pandas.insert_group k v s)) == v + total (map snd s).
Proof.
  induction s as [ | [k' v'] t IH ]; simpl; [ ring | ].
  destruct (k ?= k'); simpl; [ ring | ring | rewrite IH; ring ].
Qed.

Lemma total_groupby_sum (rows : list (Q * Q)) :
  total (map snd (Pandas.groupby_sum rows)) == total (map snd rows).
Proof.
  unfold Pandas.groupby_sum.
  assert (G : forall acc,
            total (map snd (fold_left
                     (fun acc r => Pandas.insert_group (fst r) (snd r) acc)
                     rows acc))
            == total (map snd acc) + total (map snd rows)).
  { induction rows as [ | r rows IH ]; intro acc; simpl; [ ring | ].
    rewrite IH, total_insert_group. ring. }
  rewrite G. simpl. ring.
Qed.

Lemma last_cumsum_from (l : list Q) :
  forall acc d, last (acc :: cumsum_from acc l) d == acc + total l.
Proof.
  induction l as [ | x l IH ]; intros acc d.
  - simpl. ring.
  - change (last (acc :: cumsum_from acc (x :: l)) d)
      with (last ((acc + x) :: cumsum_from (acc + x) l) d).
    rewrite IH. simpl. ring.
Qed.

(** ** The groups of [groupby_sum] *)

Lemma insert_group_nonempty (k v : Q) (s : series) :
  Pandas.insert_group k v s <> [].
Proof.
  destruct s as [ | [k' v'] t ]; simpl; [ discriminate | ].
  destruct (k ?= k'); discriminate.
Qed.

Lemma groupby_sum_nonempty (rows : list (Q * Q)) :
  rows <> [] -> Pandas.groupby_sum rows <> [].
Proof.
  unfold Pandas.groupby_sum.
  assert (G : forall rows acc, acc <> [] ->
            fold_left (fun acc r => Pandas.insert_group (fst r) (snd r) acc)
                      rows acc <> []).
  { induction rows0 as [ | r rows0 IH ]; intros acc Hacc; simpl.
    - exact Hacc.
    - apply IH. apply insert_group_nonempty. }
  destruct rows as [ | r rows ]; intro H; [ contradiction | ].
  cbn [fold_left]. apply G. apply insert_group_nonempty.
Qed.

Lemma insert_group_keys_in (k v : Q) (s : series) (key : Q) :
  In key (map fst (Pandas.insert_group k v s)) ->
  key = k \/ In key (map fst s).
Proof.
  induction s as [ | [k' v'] t IH ]; simpl.
  - intros [ <- | [] ]. left. reflexivity.
  - destruct (k ?= k'); simpl.
    + intros [ <- | H ]; right; [ left | right ]; auto.
    + intros [ <- | [ <- | H ] ]; [ left | right; left | right; right ];
        auto.
    + intros [ <- | H ]; [ right; left; reflexivity | ].
      destruct (IH H) as [ -> | H' ]; [ left | right; right ]; auto.
Qed.

Lemma insert_group_has_key (k v : Q) (s : series) :
  InA Qeq k (map fst (Pandas.insert_group k v s)).
Proof.
  induction s as [ | [k' v'] t IH ]; simpl.
  - left. reflexivity.
  - destruct (k ?= k') eqn:E; simpl.
    + left. apply Qeq_alt. exact E.
    + left. reflexivity.
    + right. exact IH.
Qed.

Lemma insert_group_keeps_keys (k v : Q) (s : series) (key : Q) :
  InA Qeq key (map fst s) ->
  InA Qeq key (map fst (Pandas.insert_group k v s)).
Proof.
  induction s as [ | [k' v'] t IH ]; simpl; intro H.
  - inversion H.
  - destruct (k ?= k'); simpl.
    + exact H.
    + right. exact H.
    + inversion H as [ ? ? E | ? ? Hin ]; subst;
        [ left; exact E | right; apply IH; exact Hin ].
Qed.

Lemma groupby_sum_keys (rows : list (Q * Q)) :
  (forall key, In key (map fst (Pandas.groupby_sum rows)) ->
               In key (map fst rows))
  /\ (forall r, In r rows ->
                InA Qeq (fst r) (map fst (Pandas.groupby_sum rows))).
Proof.
  unfold Pandas.groupby_sum.
  assert (G : forall rows acc,
            (forall key,
               In key (map fst (fold_left
                         (fun acc r =>
                            Pandas.insert_group (fst r) (snd r) acc)
                         rows acc)) ->
               In key (map fst acc) \/ In key (map fst rows))
            /\ (forall key, InA Qeq key (map fst acc) ->
                   InA Qeq key (map fst (fold_left
                         (fun acc r =>
                            Pandas.insert_group (fst r) (snd r) acc)
                         rows acc)))
            /\ (forall r, In r rows ->
                   InA Qeq (fst r) (map fst (fold_left
                         (fun acc r =>
                            Pandas.insert_group (fst r) (snd r) acc)
                         rows acc)))).
  { induction rows0 as [ | r rows0 IH ]; intro acc; simpl.
    - split; [ intros key H; left; exact H | ].
      split; [ intros key H; exact H | intros r [] ].
    - destruct (IH (Pandas.insert_group (fst r) (snd r) acc))
        as [H1 [H2 H3]].
      split; [ | split ].
      + intros key H. destruct (H1 key H) as [H' | H'].
        * destruct (insert_group_keys_in _ _ _ _ H') as [ -> | H'' ];
            [ right; left; reflexivity | left; exact H'' ].
        * right; right; exact H'.
      + intros key H. apply H2. apply insert_group_keeps_keys. exact H.
      + intros r' [ <- | H ].
        * apply H2. apply insert_group_has_key.
        * apply H3. exact H. }
  destruct (G rows []) as [H1 [_ H3]].
  split; [ | exact H3 ].
  intros key H. destruct (H1 key H) as [ [] | H' ]. exact H'.
Qed.

End FlipFacts.

(** X1: a flip reported by the iterative method comes from two
    neighbouring strikes of the grouped series at which the cumulative
    GEX is positive (the higher strike) and negative (the lower strike);
    it is the value of the interpolation formula at these two and lies
    between them, ends included. *)
Theorem cum_gam_between_adjacent_strikes (rows : list (Q * Q)) (v : Q) :
  fst (Ratio.process_file rows) = Some v ->
  exists pre k1 c1 k2 c2 post,
    Ratio.cumulative_gex (Ratio.gex_by_strike rows)
    = pre ++ (k1, c1) :: (k2, c2) :: post
    /\ 0 < c1 /\ c2 < 0 /\ k2 < k1
    /\ v = Ratio.interpolate k1 c1 k2 c2
    /\ k2 <= v <= k1.
Proof.
  unfold Ratio.process_file. cbn [fst]. unfold Ratio.cum_gam. intro H.
  destruct (FlipFacts.cum_loop_found _ _ _ H)
    as (pre & pk & pc & k & c & post & E & Hpc & Hc & ->).
  pose proof (FlipFacts.adjacent_levels _ _ _ _ _ _ _ E) as Hl.
  assert (Hk : k < pk).
  { pose proof (FlipFacts.gex_by_strike_falling rows) as Hf.
    rewrite Hl in Hf. apply (FlipFacts.falling_adjacent _ _ _ _ Hf). }
  exists pre, pk, pc, k, c, post.
  refine (conj E (conj Hpc (conj Hc (conj Hk (conj eq_refl _))))).
  destruct (FlipFacts.interpolate_strictly_between pk pc k c Hpc Hc Hk)
    as [Hlow Hhigh].
  split; apply Qlt_le_weak; assumption.
Qed.

Lemma cum_gam_between_adjacent_strikes_witness :
  exists pre k1 c1 k2 c2 post,
    Ratio.cumulative_gex
      (Ratio.gex_by_strike [(105, 50); (104, -30); (103, -30); (102, -30)])
    = pre ++ (k1, c1) :: (k2, c2) :: post
    /\ 0 < c1 /\ c2 < 0 /\ k2 < k1
    /\ 3100 # 30 = Ratio.interpolate k1 c1 k2 c2
    /\ k2 <= 3100 # 30 <= k1.
Proof.
  apply (cum_gam_between_adjacent_strikes
           [(105, 50); (104, -30); (103, -30); (102, -30)] (3100 # 30)).
  vm_compute. reflexivity.
Defined.

(** X2: a flip reported by the vectorized method lies between two
    neighbouring strikes of the grouped series, ends included. *)
Theorem vec_gam_between_adjacent_strikes (rows : list (Q * Q)) (v : Q) :
  snd (Ratio.process_file rows) = Some v ->
  exists pre k1 k2 post,
    Ratio.levels (Ratio.gex_by_strike rows) = pre ++ k1 :: k2 :: post
    /\ k2 <= v <= k1.
Proof.
  unfold Ratio.process_file. cbn [snd].
  rewrite RatioFacts.vec_gam_loop. intro H.
  destruct (Ratio.cumulative_gex (Ratio.gex_by_strike rows))
    as [ | first rest ] eqn:Ecum; [ discriminate | ].
  destruct (FlipFacts.vec_loop_found _ _ _ H)
    as (pre & pk & pc & k & c & post & E & Hs & ->).
  rewrite E in Ecum.
  pose proof (FlipFacts.adjacent_levels _ _ _ _ _ _ _ Ecum) as Hl.
  exists (map fst pre), pk, k, (map fst post).
  split; [ exact Hl | ].
  apply FlipFacts.interpolate_between; [ exact Hs | ].
  pose proof (FlipFacts.gex_by_strike_falling rows) as Hf.
  rewrite Hl in Hf. apply (FlipFacts.falling_adjacent _ _ _ _ Hf).
Qed.

Lemma vec_gam_between_adjacent_strikes_witness :
  exists pre k1 k2 post,
    Ratio.levels (Ratio.gex_by_strike [(101, -10); (100, 20)])
    = pre ++ k1 :: k2 :: post
    /\ k2 <= 2010 # 20 <= k1.
Proof.
  apply (vec_gam_between_adjacent_strikes [(101, -10); (100, 20)]
           (2010 # 20)).
  vm_compute. reflexivity.
Defined.

(** X3: whenever the iterative method finds a flip, the vectorized method
    finds one too, at the same or at a higher strike. *)
Theorem vec_gam_covers_cum_gam (rows : list (Q * Q)) (v : Q) :
  fst (Ratio.process_file rows) = Some v ->
  exists w, snd (Ratio.process_file rows) = Some w /\ v <= w.
Proof.
  unfold Ratio.process_file. cbn [fst snd].
  rewrite RatioFacts.cum_gam_loop, RatioFacts.vec_gam_loop.
  pose proof (FlipFacts.gex_by_strike_falling rows) as Hf.
  rewrite <- FlipFacts.levels_cumulative_gex in Hf.
  destruct (Ratio.cumulative_gex (Ratio.gex_by_strike rows))
    as [ | [pk pc] rest ]; [ discriminate | ].
  intro H. apply (FlipFacts.vec_loop_covers rest pk pc v Hf H).
Qed.

Lemma vec_gam_covers_cum_gam_witness :
  exists w,
    snd (Ratio.process_file [(105, -5); (104, 20); (103, -30)]) = Some w
    /\ 3105 # 30 <= w.
Proof.
  apply (vec_gam_covers_cum_gam [(105, -5); (104, 20); (103, -30)]
           (3105 # 30)).
  vm_compute. reflexivity.
Defined.

(** X4: when the cumulative series starts positive and is never exactly
    zero, the two methods return the same result, however often the
    series changes sign. *)
Theorem flip_methods_equal_without_zero (s : Ratio.series) :
  0 < hd 0 (Ratio.totalGamma s) ->
  Forall (fun x => ~ x == 0) (Ratio.totalGamma s) ->
  Ratio.cum_gam s = Ratio.vec_gam s.
Proof.
  intros Hhd Hnz.
  rewrite RatioFacts.cum_gam_loop, RatioFacts.vec_gam_loop.
  rewrite <- RatioFacts.totalGamma_cumulative_gex in Hhd, Hnz.
  destruct (Ratio.cumulative_gex s) as [ | [pk pc] rest ];
    [ reflexivity | ].
  cbn [map snd hd] in Hhd, Hnz.
  apply FlipFacts.loops_equal; [ exact Hhd | ].
  apply Forall_inv_tail in Hnz. rewrite Forall_map in Hnz. exact Hnz.
Qed.

Lemma flip_methods_equal_without_zero_witness :
  Ratio.cum_gam [(105, 50); (104, -80); (103, 60); (102, -70)]
  = Ratio.vec_gam [(105, 50); (104, -80); (103, 60); (102, -70)].
Proof.
  apply flip_methods_equal_without_zero.
  - vm_compute. reflexivity.
  - vm_compute. repeat constructor; discriminate.
Defined.

(** X5: grouping keeps the total: the per-strike sums add up to the sum
    of all rows, and the cumulative series of a file with rows ends at
    the total GEX of the file. *)
Theorem cumulative_series_ends_at_total (rows : list (Q * Q)) (d : Q) :
  rows <> [] ->
  Flip.total (map snd (Pandas.groupby_sum rows)) == Flip.total (map snd rows)
  /\ last (Ratio.totalGamma (Ratio.gex_by_strike rows)) d
     == Flip.total (map snd rows).
Proof.
  intro Hrows. split; [ apply FlipFacts.total_groupby_sum | ].
  rewrite <- (FlipFacts.total_groupby_sum rows).
  rewrite <- (FlipFacts.total_rev (map snd (Pandas.groupby_sum rows))).
  rewrite <- map_rev. fold (Ratio.gex_by_strike rows).
  assert (Hne : Ratio.gex_by_strike rows <> []).
  { unfold Ratio.gex_by_strike. intro E.
    apply (f_equal (@rev (Q * Q))) in E. rewrite rev_involutive in E.
    apply (FlipFacts.groupby_sum_nonempty rows Hrows E). }
  destruct (Ratio.gex_by_strike rows) as [ | [k v] t ];
    [ contradiction | ].
  unfold Ratio.totalGamma. cbn [map snd Ratio.cumsum Flip.total].
  apply FlipFacts.last_cumsum_from.
Qed.

Lemma cumulative_series_ends_at_total_witness :
  Flip.total (map snd (Pandas.groupby_sum [(105, 50); (104, 20); (105, -7)]))
  == Flip.total (map snd [(105, 50); (104, 20); (105, -7)])
  /\ last (Ratio.totalGamma
             (Ratio.gex_by_strike [(105, 50); (104, 20); (105, -7)])) 0
     == Flip.total (map snd [(105, 50); (104, 20); (105, -7)]).
Proof.
  apply (cumulative_series_ends_at_total
           [(105, 50); (104, 20); (105, -7)] 0).
  discriminate.
Defined.

(** X6: grouping by strike yields one entry per distinct strike: the
    group keys increase strictly, every key is the strike of some row,
    and every row's strike has its group. *)
Theorem groupby_one_group_per_strike (rows : list (Q * Q)) :
  Sorted Qlt (map fst (Pandas.groupby_sum rows))
  /\ (forall key, In key (map fst (Pandas.groupby_sum rows)) ->
                  In key (map fst rows))
  /\ (forall r, In r rows ->
                InA Qeq (fst r) (map fst (Pandas.groupby_sum rows))).
Proof.
  split; [ apply PandasFacts.groupby_sum_sorted | ].
  apply FlipFacts.groupby_sum_keys.
Qed.

(* ================================================================== *)
(** * Rounding, exposures and totals *)

Module RoundFacts.
Import Rounding.

Lemma round_half_even_Z (z : Z) : round_half_even (inject_Z z) = z.
Proof.
  unfold round_half_even. rewrite Qfloor_Z.
  assert (E : inject_Z z - inject_Z z == 0) by ring.
  rewrite (Qcompare_comp _ _ E (1 # 2) (1 # 2) (Qeq_refl _)).
  reflexivity.
Qed.

(** Rounding to the nearest integer is off by at most one half. *)
Lemma round_half_even_error (q : Q) :
  - (1 # 2) <= inject_Z (round_half_even q) - q <= 1 # 2.
Proof.
  unfold round_half_even.
  pose proof (Qfloor_le q) as Hlo. pose proof (Qlt_floor q) as Hhi.
  rewrite inject_Z_plus in Hhi. change (inject_Z 1) with 1 in Hhi.
  destruct (Qcompare (q - inject_Z (Qfloor q)) (1 # 2)) eqn:E.
  - apply Qeq_alt in E.
    destruct (Z.even (Qfloor q));
      [ | rewrite inject_Z_plus; change (inject_Z 1) with 1 ];
      split; lra.
  - apply Qlt_alt in E. split; lra.
  - apply Qgt_alt in E. rewrite inject_Z_plus.
    change (inject_Z 1) with 1. split; lra.
Qed.

Lemma round_half_even_nonneg (q : Q) :
  0 <= q -> (0 <= round_half_even q)%Z.
Proof.
  intro H. unfold round_half_even.
  assert (Hf : (0 <= Qfloor q)%Z).
  { change 0%Z with (Qfloor 0). apply Qfloor_resp_le. exact H. }
  destruct (Qcompare _ _); [ destruct (Z.even _) | | ]; lia.
Qed.

Lemma round_half_even_nonpos (q : Q) :
  q <= 0 -> (round_half_even q <= 0)%Z.
Proof.
  intro H.
  pose proof (round_half_even_error q) as [_ Hhi].
  assert (Hq : inject_Z (round_half_even q) < inject_Z 1).
  { change (inject_Z 1) with 1. lra. }
  rewrite <- Zlt_Qlt in Hq. lia.
Qed.

Lemma round3_milli (q : Q) : milli (round3 q).
Proof.
  exists (round_half_even (q * 1000)). reflexivity.
Qed.

Lemma round3_of_milli (x : Q) : milli x -> round3 x == x.
Proof.
  intros [n Hn]. unfold round3.
  assert (E : x * 1000 == inject_Z n) by (rewrite Hn; field).
  rewrite (AbsoExpoFacts.round_half_even_comp _ _ E), round_half_even_Z.
  rewrite Hn. reflexivity.
Qed.

Lemma milli_opp (x : Q) : milli x -> milli (x * -1).
Proof.
  intros [n Hn]. exists (- n)%Z. rewrite inject_Z_opp, Hn. field.
Qed.

Lemma round3_error (q : Q) : Qabs (round3 q - q) <= 1 # 2000.
Proof.
  apply Qabs_Qle_condition. unfold round3.
  pose proof (round_half_even_error (q * 1000)) as [Hlo Hhi].
  set (n := inject_Z (round_half_even (q * 1000))) in *.
  assert (E : n / 1000 - q == (n - q * 1000) / 1000) by field.
  rewrite E. split.
  - apply Qle_shift_div_l; [ reflexivity | lra ].
  - apply Qle_shift_div_r; [ reflexivity | lra ].
Qed.

Lemma round3_nonneg (q : Q) : 0 <= q -> 0 <= round3 q.
Proof.
  intro H. unfold round3.
  assert (Hn : (0 <= round_half_even (q * 1000))%Z)
    by (apply round_half_even_nonneg; lra).
  rewrite Zle_Qle in Hn. change (inject_Z 0) with 0 in Hn.
  apply Qle_shift_div_l; [ reflexivity | lra ].
Qed.

Lemma round3_nonpos (q : Q) : q <= 0 -> round3 q <= 0.
Proof.
  intro H. unfold round3.
  assert (Hn : (round_half_even (q * 1000) <= 0)%Z)
    by (apply round_half_even_nonpos; lra).
  rewrite Zle_Qle in Hn. change (inject_Z 0) with 0 in Hn.
  apply Qle_shift_div_r; [ reflexivity | lra ].
Qed.

End RoundFacts.

Module ExposureFacts.
Import Rounding.

Lemma fround3_idempotent (y : float) :
  Float.same (fround3 (fround3 y)) (fround3 y).
Proof.
  destruct y as [ | a ]; cbn; [ exact I | ].
  apply RoundFacts.round3_of_milli, RoundFacts.round3_milli.
Qed.

Lemma fround3_negated (y : float) :
  Float.same (fround3 (fround3 y * Num (-1))%F) (fround3 y * Num (-1))%F.
Proof.
  destruct y as [ | a ]; cbn; [ exact I | ].
  apply RoundFacts.round3_of_milli, RoundFacts.milli_opp,
    RoundFacts.round3_milli.
Qed.

Lemma Qabs_zero_iff (x : Q) : Qabs x == 0 <-> x == 0.
Proof.
  split; intro H.
  - assert (Hle : Qabs x <= 0) by (rewrite H; apply Qle_refl).
    apply Qabs_Qle_condition in Hle. lra.
  - rewrite H. reflexivity.
Qed.

(** When [.str] refuses the option type column. *)
Lemma str_raises_rows {A : Type} (putCall : A -> option string)
    (df : list A) :
  Pandas.str_raises (map putCall df) = true
  <-> df <> [] /\ Forall (fun r => putCall r = None) df.
Proof.
  destruct df as [ | r df ].
  - cbn. split; [ discriminate | intros [H _]; contradiction ].
  - change (Pandas.str_raises (map putCall (r :: df)))
      with (forallb (fun c => match c with None => true | Some _ => false end)
                    (map putCall (r :: df))).
    rewrite forallb_forall. split.
    + intro H. split; [ discriminate | ].
      apply Forall_forall. intros x Hx.
      specialize (H (putCall x) (in_map putCall _ _ Hx)).
      destruct (putCall x); [ discriminate | reflexivity ].
    + intros [_ H] c Hc. apply in_map_iff in Hc.
      destruct Hc as [x [<- Hx]]. rewrite Forall_forall in H.
      rewrite (H x Hx). reflexivity.
Qed.

(** The ratio of one row of the totals. *)
Lemma greek_row_ratio (name : string) (greek : GreekTotals.Row -> float)
    (df : list GreekTotals.Row) :
  (forall q,
     GreekTotals.Ratio (GreekTotals.greek_row name greek df) = Some q ->
     0 <= q)
  /\ (filter (GreekTotals.is_side "PUT") df = [] ->
      GreekTotals.Put (GreekTotals.greek_row name greek df) == 0
      /\ GreekTotals.Ratio (GreekTotals.greek_row name greek df) = None).
Proof.
  unfold GreekTotals.greek_row. cbv zeta.
  cbn [GreekTotals.Ratio GreekTotals.Put].
  set (put_total := GreekTotals.side_total "PUT" greek df).
  set (call_total := GreekTotals.side_total "CALL" greek df).
  assert (Hiff : Qeq_bool (Qabs put_total) 0 = true <-> put_total == 0).
  { rewrite Qeq_bool_iff. apply Qabs_zero_iff. }
  split.
  - intro q.
    destruct (Qeq_bool (Qabs put_total) 0) eqn:E; cbn [negb option_map];
      [ discriminate | ].
    intros [= <-]. unfold GreekTotals.round6.
    assert (Hratio : 0 <= Qabs call_total / Qabs put_total).
    { assert (Hp : 0 < Qabs put_total).
      { pose proof (Qabs_nonneg put_total) as Hn.
        apply Qeq_bool_neq in E.
        destruct (Qle_lt_or_eq _ _ Hn) as [ H | H ];
          [ exact H | exfalso; apply E; symmetry; exact H ]. }
      apply Qle_shift_div_l; [ exact Hp | ].
      pose proof (Qabs_nonneg call_total). lra. }
    assert (Hn : (0 <= round_half_even
                        (Qabs call_total / Qabs put_total * 1000000))%Z)
      by (apply RoundFacts.round_half_even_nonneg; lra).
    rewrite Zle_Qle in Hn. change (inject_Z 0) with 0 in Hn.
    apply Qle_shift_div_l; [ reflexivity | lra ].
  - intro Hnone.
    assert (Hz : put_total == 0).
    { subst put_total. unfold GreekTotals.side_total.
      rewrite Hnone. reflexivity. }
    split; [ apply AbsoExpoFacts.round3_zero; exact Hz | ].
    apply Hiff in Hz. rewrite Hz. reflexivity.
Qed.

End ExposureFacts.

(** X7: every exposure value is rounded to three decimals: rounding it
    again changes nothing, for calls and puts, also when a cell holds no
    number. *)
Theorem exposures_are_rounded (r : AbsoExpo.Row) :
  Float.same (fround3 (AbsoExpo.DEX (AbsoExpo.row_exposures r)))
             (AbsoExpo.DEX (AbsoExpo.row_exposures r))
  /\ Float.same (fround3 (AbsoExpo.GEX (AbsoExpo.row_exposures r)))
                (AbsoExpo.GEX (AbsoExpo.row_exposures r))
  /\ Float.same (fround3 (AbsoExpo.VEX (AbsoExpo.row_exposures r)))
                (AbsoExpo.VEX (AbsoExpo.row_exposures r))
  /\ Float.same (fround3 (AbsoExpo.CEX (AbsoExpo.row_exposures r)))
                (AbsoExpo.CEX (AbsoExpo.row_exposures r)).
Proof.
  unfold AbsoExpo.row_exposures, AbsoExpo.to_millions.
  cbn [AbsoExpo.DEX AbsoExpo.GEX AbsoExpo.VEX AbsoExpo.CEX].
  refine (conj _ (conj _ (conj _ _)));
    try apply ExposureFacts.fround3_idempotent.
  destruct (AbsoExpo.is_put r).
  - apply ExposureFacts.fround3_negated.
  - apply ExposureFacts.fround3_idempotent.
Qed.

(** X8: each exposure is within 0.0005 of its formula in millions:
    delta * OI * spot, gamma * OI * spot^2 * 100 (negated for puts),
    vanna * OI * spot * IV and charm * OI * spot * 365, each divided by
    1,000,000. *)
Theorem exposures_match_formulas
    (delta gamma vanna charm spotPrice openInterest impliedVolatility : Q)
    (putCall : option string) :
  let row :=
    AbsoExpo.mkRow (Num delta) (Num gamma) (Num vanna) (Num charm)
                   (Num spotPrice) (Num openInterest) putCall
                   (Num impliedVolatility) in
  let sgn := if AbsoExpo.is_put row then -1 else 1 in
  exists dex gex vex cex,
    AbsoExpo.row_exposures row
    = AbsoExpo.mkExposures (Num dex) (Num gex) (Num vex) (Num cex)
    /\ Qabs (dex - delta * openInterest * spotPrice / 1000000) <= 1 # 2000
    /\ Qabs (gex - sgn * (gamma * openInterest * (spotPrice * spotPrice)
                          * 100 / 1000000)) <= 1 # 2000
    /\ Qabs (vex - vanna * openInterest * spotPrice * impliedVolatility
                   / 1000000) <= 1 # 2000
    /\ Qabs (cex - charm * openInterest * spotPrice * 365 / 1000000)
       <= 1 # 2000.
Proof.
  intros row sgn. subst sgn. unfold AbsoExpo.row_exposures.
  destruct (AbsoExpo.is_put row) eqn:Eput; subst row;
    cbn [AbsoExpo.delta AbsoExpo.gamma AbsoExpo.vanna AbsoExpo.charm
         AbsoExpo.spotPrice AbsoExpo.openInterest
         AbsoExpo.impliedVolatility Float.mul Float.lift2];
    rewrite !AbsoExpoFacts.to_millions_num;
    cbn [Float.mul Float.lift2];
    eexists _, _, _, _;
    (split; [ reflexivity | ]);
    refine (conj _ (conj _ (conj _ _)));
    try apply RoundFacts.round3_error.
  - set (g := gamma * openInterest * (spotPrice * spotPrice) * 100
              / 1000000).
    assert (E : round3 g * -1 - -1 * g == - (round3 g - g)) by ring.
    rewrite E, Qabs_opp. apply RoundFacts.round3_error.
  - set (g := gamma * openInterest * (spotPrice * spotPrice) * 100
              / 1000000).
    assert (E : round3 g - 1 * g == round3 g - g) by ring.
    rewrite E. apply RoundFacts.round3_error.
Qed.

(** X9: the GEX sign convention: with gamma and open interest not
    negative, the GEX of a put row is never positive and the GEX of any
    other row is never negative. *)
Theorem gex_sign_convention
    (delta gamma vanna charm spotPrice openInterest impliedVolatility : Q)
    (putCall : option string) :
  0 <= gamma -> 0 <= openInterest ->
  let row :=
    AbsoExpo.mkRow (Num delta) (Num gamma) (Num vanna) (Num charm)
                   (Num spotPrice) (Num openInterest) putCall
                   (Num impliedVolatility) in
  exists gex,
    AbsoExpo.GEX (AbsoExpo.row_exposures row) = Num gex
    /\ (if AbsoExpo.is_put row then gex <= 0 else 0 <= gex).
Proof.
  intros Hg Hoi row. unfold AbsoExpo.row_exposures.
  assert (Hpos : 0 <= gamma * openInterest * (spotPrice * spotPrice) * 100
                      / 1000000).
  { apply Qle_shift_div_l; [ reflexivity | ].
    assert (Hs : 0 <= spotPrice * spotPrice) by nra.
    assert (Hgo : 0 <= gamma * openInterest) by nra.
    nra. }
  apply RoundFacts.round3_nonneg in Hpos.
  destruct (AbsoExpo.is_put row) eqn:Eput; subst row;
    cbn [AbsoExpo.gamma AbsoExpo.spotPrice AbsoExpo.openInterest
         AbsoExpo.GEX Float.mul Float.lift2];
    rewrite AbsoExpoFacts.to_millions_num; cbn [Float.mul Float.lift2];
    eexists; (split; [ reflexivity | ]); lra.
Qed.

Lemma gex_sign_convention_witness :
  exists gex,
    AbsoExpo.GEX
      (AbsoExpo.row_exposures
         (AbsoExpo.mkRow (Num 0.5) (Num 0.01) (Num 0.2) (Num (-0.3))
                         (Num 5000) (Num 120) (Some "put"%string)
                         (Num 0.2)))
    = Num gex
    /\ gex <= 0.
Proof.
  apply (gex_sign_convention 0.5 0.01 0.2 (-0.3) 5000 120 0.2
           (Some "put"%string)); discriminate.
Defined.

(** X10: [calculate_greek_totals] answers the empty frame exactly when
    the frame has rows but no option type text in any of them, where the
    [.str] accessor raises; otherwise it has one row for each of DEX,
    GEX, CEX and VEX, in that order.  In every row a ratio that is there
    is not negative, and when the frame has no put row the put total is
    0 and the ratio is null. *)
Theorem greek_totals_ratio (df : list GreekTotals.Row) :
  (GreekTotals.calculate_greek_totals df = []
   <-> df <> [] /\ Forall (fun r => GreekTotals.putCall r = None) df)
  /\ (GreekTotals.calculate_greek_totals df <> [] ->
      map GreekTotals.Greek (GreekTotals.calculate_greek_totals df)
      = ["DEX"; "GEX"; "CEX"; "VEX"]%string)
  /\ (forall t, In t (GreekTotals.calculate_greek_totals df) ->
        (forall q, GreekTotals.Ratio t = Some q -> 0 <= q)
        /\ (filter (GreekTotals.is_side "PUT") df = [] ->
            GreekTotals.Put t == 0 /\ GreekTotals.Ratio t = None)).
Proof.
  unfold GreekTotals.calculate_greek_totals.
  pose proof (ExposureFacts.str_raises_rows GreekTotals.putCall df) as Hstr.
  destruct (Pandas.str_raises (map GreekTotals.putCall df)).
  - refine (conj _ (conj _ _)).
    + split; [ intros _; apply Hstr; reflexivity | reflexivity ].
    + intro H. contradiction H. reflexivity.
    + intros t [].
  - refine (conj _ (conj _ _)).
    + split; [ discriminate | ].
      intro H. apply Hstr in H. discriminate H.
    + intros _. reflexivity.
    + intros t [ <- | [ <- | [ <- | [ <- | [] ] ] ] ];
        apply ExposureFacts.greek_row_ratio.
Qed.

(** X11: the theoretical ES price is a multiple of one quarter point and
    lies within one eighth of strike * (1 + multiplier). *)
Theorem theo_es_is_nearest_quarter (strike_price multiplier : Q) :
  Rounding.quarter (Ranking.calculate_theo_es strike_price multiplier)
  /\ Qabs (Ranking.calculate_theo_es strike_price multiplier
           - strike_price * (1 + multiplier)) <= 1 # 8.
Proof.
  unfold Ranking.calculate_theo_es. cbv zeta. split.
  - eexists. reflexivity.
  - apply Qabs_Qle_condition.
    set (theo := strike_price + strike_price * multiplier).
    pose proof (RoundFacts.round_half_even_error (theo * 4)) as [Hlo Hhi].
    set (n := inject_Z (round_half_even (theo * 4))) in *.
    assert (E : n / 4 - strike_price * (1 + multiplier)
                == (n - theo * 4) / 4) by (unfold theo; field).
    rewrite E. split.
    + apply Qle_shift_div_l; [ reflexivity | lra ].
    + apply Qle_shift_div_r; [ reflexivity | lra ].
Qed.

(* ================================================================== *)
(** * Further properties of the ranking *)

Module BucketFacts.
Import Ranking.

Lemma map_combine_seq_snoc {A C : Type} (g : nat * A -> C) (x : A)
    (l : list A) :
  forall a,
    map g (combine (seq a (List.length (l ++ [x]))) (l ++ [x]))
    = map g (combine (seq a (List.length l)) l)
      ++ [g ((a + List.length l)%nat, x)].
Proof.
  induction l as [ | y l IH ]; intro a; simpl.
  - rewrite Nat.add_0_r. reflexivity.
  - f_equal. rewrite IH. rewrite Nat.add_succ_r. reflexivity.
Qed.

(** The last row of a labelled bucket. *)
Lemma labelled_snoc (es_multiplier : Q) (side exposure_column : string)
    (number : nat -> nat) (l : Pandas.series) (x : Q * Q) :
  labelled es_multiplier side exposure_column number (l ++ [x])
  = labelled es_multiplier side exposure_column number l
    ++ [mkRanked (fst x) (calculate_theo_es (fst x) es_multiplier)
                 (rank_label side exposure_column (number (List.length l)))
                 exposure_column (snd x)].
Proof.
  unfold labelled. rewrite map_combine_seq_snoc. reflexivity.
Qed.

Lemma tail_length {A : Type} (n : nat) (l : list A) :
  List.length (tail n l) = Nat.min n (List.length l).
Proof.
  unfold tail. rewrite length_skipn. lia.
Qed.

Lemma value_ge_refl (x : Q * Q) : value_ge x x.
Proof.
  unfold value_ge, is_true, ValueDesc.leb. apply Qle_bool_iff.
  apply Qle_refl.
Qed.

End BucketFacts.

(** X12: for every [top_n], the top bucket has min(top_n, m) rows in
    descending order of value and no aggregated row left out of it has a
    larger value than a row in it; the bottom bucket has min(top_n, m)
    rows in descending order and no row left out of it has a smaller
    value than a row in it. *)
Theorem buckets_hold_the_extremes (es_multiplier : Q)
    (rows : list (Q * Q)) (exposure_column : string) (top_n : nat) :
  let m := List.length (Pandas.groupby_sum rows) in
  let top := Ranking.top_levels es_multiplier rows exposure_column top_n in
  let bottom :=
    Ranking.bottom_levels es_multiplier rows exposure_column top_n in
  List.length top = Nat.min top_n m
  /\ List.length bottom = Nat.min top_n m
  /\ Ranking.descending (map Ranking.Value top)
  /\ Ranking.descending (map Ranking.Value bottom)
  /\ (forall t r, In t top -> In r (skipn top_n (Ranking.aggregated rows)) ->
        snd r <= Ranking.Value t)
  /\ (forall b r, In b bottom ->
        In r (firstn (m - top_n) (Ranking.aggregated rows)) ->
        Ranking.Value b <= snd r).
Proof.
  intros m top bottom. subst m top bottom.
  unfold Ranking.top_levels, Ranking.bottom_levels, Ranking.head,
    Ranking.tail.
  pose proof (RankingFacts.length_aggregated rows) as Hlen.
  rewrite <- Hlen.
  set (agg := Ranking.aggregated rows) in *.
  pose proof (RankingFacts.aggregated_sorted rows) as Hsorted.
  fold agg in Hsorted.
  pose proof Hsorted as Hs1. rewrite <- (firstn_skipn top_n agg) in Hs1.
  apply RankingFacts.strongly_sorted_app in Hs1.
  destruct Hs1 as [Htop [_ Htop_rest]].
  pose proof Hsorted as Hs2.
  rewrite <- (firstn_skipn (List.length agg - top_n) agg) in Hs2.
  apply RankingFacts.strongly_sorted_app in Hs2.
  destruct Hs2 as [_ [Hbottom Hrest_bottom]].
  refine (conj _ (conj _ (conj _ (conj _ (conj _ _))))).
  - rewrite RankingFacts.length_labelled. apply length_firstn.
  - rewrite RankingFacts.length_labelled, length_skipn. lia.
  - rewrite RankingFacts.values_labelled.
    apply RankingFacts.sorted_descending, Htop.
  - rewrite RankingFacts.values_labelled.
    apply RankingFacts.sorted_descending, Hbottom.
  - intros t r Ht Hr.
    destruct (RankingFacts.In_labelled _ _ _ _ _ _ Ht) as [Ht' _].
    specialize (Htop_rest _ _ Ht' Hr).
    apply Qle_bool_iff in Htop_rest. exact Htop_rest.
  - intros b r Hb Hr.
    destruct (RankingFacts.In_labelled _ _ _ _ _ _ Hb) as [Hb' _].
    specialize (Hrest_bottom _ _ Hr Hb').
    apply Qle_bool_iff in Hrest_bottom. exact Hrest_bottom.
Qed.

(** X13: the last row of the ranked output carries the smallest
    aggregated value and the label Put G (top_n - min(top_n, m) + 1):
    "Put G 1" when the frame has at least [top_n] strikes, but a higher
    number when it has fewer, so that no row is then labelled
    "Put G 1". *)
Theorem lowest_level_label (es_multiplier : Q) (rows : list (Q * Q))
    (exposure_column : string) (top_n : nat) (d : Ranking.RankedLevel) :
  let m := List.length (Pandas.groupby_sum rows) in
  (0 < m)%nat -> (0 < top_n)%nat ->
  let lowest :=
    last (Ranking.rank_exposures es_multiplier rows exposure_column top_n)
         d in
  Ranking.Rank lowest
  = Ranking.rank_label "Put" exposure_column
      (top_n - (Nat.min top_n m - 1))
  /\ (forall r, In r (Ranking.aggregated rows) ->
        Ranking.Value lowest <= snd r)
  /\ ((top_n <= m)%nat ->
      Ranking.Rank lowest = ("Put " ++ exposure_column ++ " 1")%string).
Proof.
  intros m Hm Hn lowest. subst m lowest.
  pose proof (RankingFacts.length_aggregated rows) as Hlen.
  rewrite <- Hlen in *.
  pose proof (RankingFacts.aggregated_sorted rows) as Hsorted.
  unfold Ranking.rank_exposures, Ranking.bottom_levels.
  set (agg := Ranking.aggregated rows) in *.
  assert (Hne : Ranking.tail top_n agg <> []).
  { intro E. apply (f_equal (@List.length (Q * Q))) in E.
    rewrite BucketFacts.tail_length in E. simpl in E. lia. }
  destruct (exists_last Hne) as [l [x Hl]].
  assert (Hll : List.length l = (Nat.min top_n (List.length agg) - 1)%nat).
  { apply (f_equal (@List.length (Q * Q))) in Hl.
    rewrite BucketFacts.tail_length, length_app in Hl. simpl in Hl. lia. }
  rewrite Hl, BucketFacts.labelled_snoc, app_assoc, last_last.
  cbn [Ranking.Rank Ranking.Value].
  assert (Hsplit : agg
                   = (firstn (List.length agg - top_n) agg ++ l) ++ [x]).
  { rewrite <- app_assoc, <- Hl. unfold Ranking.tail.
    symmetry. apply firstn_skipn. }
  refine (conj _ (conj _ _)).
  - rewrite Hll. reflexivity.
  - intros r Hr. rewrite Hsplit in Hr, Hsorted.
    apply RankingFacts.strongly_sorted_app in Hsorted.
    destruct Hsorted as [_ [_ Hcross]].
    apply in_app_or in Hr. destruct Hr as [Hr | [<- | []]].
    + specialize (Hcross r x Hr (or_introl eq_refl)).
      apply Qle_bool_iff in Hcross. exact Hcross.
    + apply Qle_refl.
  - intro Hle. rewrite Hll.
    replace (top_n - (Nat.min top_n (List.length agg) - 1))%nat
      with 1%nat by lia.
    reflexivity.
Qed.

Lemma lowest_level_label_witness :
  Ranking.Rank
    (last (Ranking.rank_exposures 0.0012 [(100, 3); (101, -2); (102, 7)]
                                  "GEX" 5)
          (Ranking.mkRanked 0 0 "" "" 0))
  = Ranking.rank_label "Put" "GEX" (5 - (Nat.min 5 3 - 1)).
Proof.
  assert (Hm : (0 < List.length
                      (Pandas.groupby_sum
                         [(100, 3); (101, -2); (102, 7)]%Q))%nat)
    by (vm_compute; lia).
  assert (Hn : (0 < 5)%nat) by lia.
  exact (proj1 (lowest_level_label 0.0012 _ "GEX" 5
                  (Ranking.mkRanked 0 0 "" "" 0) Hm Hn)).
Defined.

(* ================================================================== *)
(** * Dates and expiration buckets *)

Module DateFacts.
Import Dates.

Lemma days_in_month_range (year month : Z) :
  (28 <= days_in_month year month <= 31)%Z.
Proof.
  unfold days_in_month.
  destruct (month =? 2)%Z; [ destruct (is_leap year); lia | ].
  destruct (_ || _); lia.
Qed.

Lemma weekday_range (d : date) : (0 <= weekday d <= 6)%Z.
Proof.
  unfold weekday. pose proof (Z.mod_pos_bound (d + 6) 7). lia.
Qed.

Lemma upcoming_friday_facts (today : date) :
  weekday (get_upcoming_friday today) = 4%Z
  /\ (today <= get_upcoming_friday today <= today + 6)%Z
  /\ (forall d, (today <= d < get_upcoming_friday today)%Z ->
                weekday d <> 4%Z).
Proof.
  unfold get_upcoming_friday, weekday, add_days. cbv zeta.
  refine (conj _ (conj _ _)).
  - Z.div_mod_to_equations. lia.
  - Z.div_mod_to_equations. lia.
  - intros d. Z.div_mod_to_equations. lia.
Qed.

End DateFacts.

(** X14: [get_upcoming_friday] returns a Friday, today itself when today
    is a Friday and otherwise the first Friday after today, at most six
    days ahead. *)
Theorem upcoming_friday_is_next_friday (today : Dates.date) :
  Dates.weekday (Dates.get_upcoming_friday today) = 4%Z
  /\ (today <= Dates.get_upcoming_friday today <= today + 6)%Z
  /\ (forall d, (today <= d < Dates.get_upcoming_friday today)%Z ->
                Dates.weekday d <> 4%Z).
Proof.
  apply DateFacts.upcoming_friday_facts.
Qed.

(** X15: for a month from 1 to 12, [get_last_trading_day] returns the
    last day of the month that is not a Saturday or a Sunday: it falls
    on Monday to Friday, lies in the month, and every later day of the
    month is a Saturday or a Sunday. *)
Theorem last_trading_day_is_last_weekday (year month : Z) :
  (1 <= month <= 12)%Z ->
  (0 <= Dates.weekday (Dates.get_last_trading_day year month) <= 4)%Z
  /\ (Dates.ymd year month 1
      <= Dates.get_last_trading_day year month
      <= Dates.ymd year month (Dates.days_in_month year month))%Z
  /\ (forall d,
        (Dates.get_last_trading_day year month < d
         <= Dates.ymd year month (Dates.days_in_month year month))%Z ->
        (5 <= Dates.weekday d)%Z).
Proof.
  intros _.
  pose proof (DateFacts.days_in_month_range year month) as Hdim.
  unfold Dates.get_last_trading_day, Dates.ymd, Dates.add_days in *.
  cbv zeta.
  set (before := (Dates.days_before_year year
                  + Dates.days_before_month year month)%Z).
  set (dim := Dates.days_in_month year month) in *.
  pose proof (DateFacts.weekday_range (before + dim)%Z) as Hw.
  destruct (Dates.weekday (before + dim)%Z =? 5)%Z eqn:E5;
    [ | destruct (Dates.weekday (before + dim)%Z =? 6)%Z eqn:E6 ].
  - apply Z.eqb_eq in E5. unfold Dates.weekday in *.
    refine (conj _ (conj _ _)); [ | lia | intro d ];
      Z.div_mod_to_equations; lia.
  - apply Z.eqb_eq in E6. unfold Dates.weekday in *.
    refine (conj _ (conj _ _)); [ | lia | intro d ];
      Z.div_mod_to_equations; lia.
  - apply Z.eqb_neq in E5. apply Z.eqb_neq in E6.
    refine (conj _ (conj _ _)); [ lia | lia | intro d; lia ].
Qed.

Lemma last_trading_day_is_last_weekday_witness :
  (0 <= Dates.weekday (Dates.get_last_trading_day 2026 10) <= 4)%Z
  /\ (Dates.ymd 2026 10 1
      <= Dates.get_last_trading_day 2026 10
      <= Dates.ymd 2026 10 (Dates.days_in_month 2026 10))%Z
  /\ (forall d,
        (Dates.get_last_trading_day 2026 10 < d
         <= Dates.ymd 2026 10 (Dates.days_in_month 2026 10))%Z ->
        (5 <= Dates.weekday d)%Z).
Proof.
  apply (last_trading_day_is_last_weekday 2026 10). lia.
Defined.

(** X16: the expiration buckets nest as far as the calendar allows: the
    0DTE rows are in the 1DTE and in the EoW bucket; the 1DTE rows are in
    the EoW bucket unless today is a Friday, when the EoW bucket is the
    0DTE bucket; and the EoM bucket is empty once today is past the last
    trading day of the month. *)
Theorem expiration_buckets_nest {A : Type} (expiration : A -> Dates.date)
    (today last_day : Dates.date) (df_results : list A) :
  incl (Dates.df_0dte expiration today df_results)
       (Dates.df_1dte expiration today df_results)
  /\ incl (Dates.df_0dte expiration today df_results)
          (Dates.df_eow expiration today df_results)
  /\ (Dates.weekday today <> 4%Z ->
      incl (Dates.df_1dte expiration today df_results)
           (Dates.df_eow expiration today df_results))
  /\ (Dates.weekday today = 4%Z ->
      Dates.df_eow expiration today df_results
      = Dates.df_0dte expiration today df_results)
  /\ ((last_day < today)%Z ->
      Dates.df_eom expiration today last_day df_results = []).
Proof.
  pose proof (DateFacts.upcoming_friday_facts today) as [Hf [Hr Hn]].
  unfold Dates.df_0dte, Dates.df_1dte, Dates.df_eow, Dates.df_eom,
    Dates.add_days.
  refine (conj _ (conj _ (conj _ (conj _ _)))).
  - intros r Hr0. apply filter_In in Hr0. destruct Hr0 as [Hin He].
    apply filter_In. split; [ exact Hin | ]. lia.
  - intros r Hr0. apply filter_In in Hr0. destruct Hr0 as [Hin He].
    apply filter_In. split; [ exact Hin | ]. lia.
  - intros Hnf r Hr1. apply filter_In in Hr1. destruct Hr1 as [Hin He].
    apply filter_In. split; [ exact Hin | ].
    assert (Hlt : (today < Dates.get_upcoming_friday today)%Z).
    { destruct (Z.eq_dec (Dates.get_upcoming_friday today) today) as [E | E];
        [ rewrite E in Hf; contradiction | lia ]. }
    lia.
  - intro Hfri.
    assert (E : Dates.get_upcoming_friday today = today).
    { destruct (Z.eq_dec (Dates.get_upcoming_friday today) today)
        as [E | E]; [ exact E | ].
      exfalso. apply (Hn today); [ lia | exact Hfri ]. }
    rewrite E. apply filter_ext. intro r. lia.
  - intro Hpast. apply RankingFacts.filter_none. intros r _. lia.
Qed.

(* ================================================================== *)
(** * The order in which the result files are processed *)

Module FileFacts.
Import Files.

Section Sort.
Context {A : Type} (stem : A -> string).

Lemma key_leb_total (a b : bool * string) :
  key_leb a b = false -> key_leb b a = true.
Proof.
  unfold key_leb. destruct a as [[|] s], b as [[|] t]; cbn [fst snd];
    try discriminate; try reflexivity;
    intro H; destruct (String.leb_total s t) as [E | E];
    congruence.
Qed.

Lemma key_leb_flag (f g : A) :
  key_leb (key stem f) (key stem g) = true ->
  flag stem f = true -> flag stem g = true.
Proof.
  unfold flag, key_leb, key. cbn [fst snd].
  destruct (contains "_results" (stem f)), (contains "_results" (stem g));
    try discriminate; reflexivity.
Qed.

Lemma insert_perm (f : A) (l : list A) :
  Permutation (f :: l) (insert stem f l).
Proof.
  induction l as [ | g rest IH ]; cbn [insert]; [ reflexivity | ].
  destruct (key_leb _ _); [ reflexivity | ].
  rewrite perm_swap. apply perm_skip. exact IH.
Qed.

Lemma sort_perm (l : list A) : Permutation l (sort stem l).
Proof.
  induction l as [ | f rest IH ]; cbn [sort fold_right]; [ reflexivity | ].
  rewrite <- insert_perm. apply perm_skip. exact IH.
Qed.

Lemma insert_hd (f x : A) (l : list A) :
  ordered stem x f -> HdRel (ordered stem) x l -> HdRel (ordered stem) x (insert stem f l).
Proof.
  intros Hxf Hxl. destruct l as [ | g rest ]; cbn [insert].
  - constructor. exact Hxf.
  - destruct (key_leb _ _); constructor; [ exact Hxf | ].
    inversion Hxl; assumption.
Qed.

Lemma insert_sorted (f : A) (l : list A) :
  Sorted (ordered stem) l -> Sorted (ordered stem) (insert stem f l).
Proof.
  induction l as [ | g rest IH ]; cbn [insert]; intro Hs.
  - constructor; constructor.
  - destruct (key_leb (key stem f) (key stem g)) eqn:E.
    + constructor; [ exact Hs | constructor; exact E ].
    + apply Sorted_inv in Hs. destruct Hs as [Hs Hh].
      constructor; [ apply IH; exact Hs | ].
      apply insert_hd; [ apply key_leb_total; exact E | exact Hh ].
Qed.

Lemma sort_sorted (l : list A) : Sorted (ordered stem) (sort stem l).
Proof.
  induction l as [ | f rest IH ]; cbn [sort fold_right].
  - constructor.
  - apply insert_sorted. exact IH.
Qed.

Lemma sorted_flags (l : list A) :
  Sorted (ordered stem) l ->
  StronglySorted (fun f g => flag stem f = true -> flag stem g = true) l.
Proof.
  intro Hs. apply Sorted_StronglySorted.
  - intros x y z Hxy Hyz Hx. apply Hyz, Hxy, Hx.
  - induction Hs as [ | x l Hs IH Hh ]; constructor; [ exact IH | ].
    destruct Hh as [ | y l' Hxy ]; constructor.
    apply key_leb_flag. exact Hxy.
Qed.

Lemma strongly_sorted_nth (R : A -> A -> Prop) (l : list A) :
  StronglySorted R l ->
  forall i j x y, (i < j)%nat ->
    nth_error l i = Some x -> nth_error l j = Some y -> R x y.
Proof.
  induction 1 as [ | a l Hs IH Hall ]; intros i j x y Hij Hi Hj.
  - destruct i; discriminate.
  - destruct j as [ | j ]; [ lia | ]. cbn [nth_error] in Hj.
    destruct i as [ | i ]; cbn [nth_error] in Hi.
    + injection Hi as <-. rewrite Forall_forall in Hall.
      apply Hall. apply (nth_error_In _ _ Hj).
    + apply (IH i j); [ lia | exact Hi | exact Hj ].
Qed.

End Sort.
End FileFacts.

(** X17: the sort key [("_results" in f.stem, f.stem)] puts every file
    whose stem contains "_results" behind every file whose stem does not:
    the sorted list is a rearrangement of the files in which no
    "_results" file stands before a file without "_results". *)
Theorem results_files_are_processed_last {A : Type} (stem : A -> string)
    (csv_files : list A) :
  Permutation csv_files (Files.sort stem csv_files)
  /\ forall i j f g,
       nth_error (Files.sort stem csv_files) i = Some f ->
       nth_error (Files.sort stem csv_files) j = Some g ->
       Files.contains "_results" (stem f) = true ->
       Files.contains "_results" (stem g) = false ->
       (j < i)%nat.
Proof.
  split; [ apply FileFacts.sort_perm | ].
  intros i j f g Hi Hj Hf Hg.
  destruct (Nat.lt_ge_cases j i) as [ Hlt | Hge ]; [ exact Hlt | exfalso ].
  pose proof (FileFacts.sorted_flags stem _
                (FileFacts.sort_sorted stem csv_files)) as Hs.
  destruct (Nat.eq_dec i j) as [ -> | Hne ].
  - rewrite Hi in Hj. injection Hj as <-. congruence.
  - assert (Hij : (i < j)%nat) by lia.
    pose proof (FileFacts.strongly_sorted_nth _ _ Hs i j f g Hij Hi Hj)
      as H.
    unfold Files.flag, Files.key in H. cbn [fst] in H.
    rewrite (H Hf) in Hg. discriminate.
Qed.

(* ================================================================== *)
(** * Rows kept by the solver scripts *)

Section KeptRows.

Context {sp : Scipy}.

Lemma usable_of_guard (c : cell) :
  IV.none_or_nonpositive c = false -> Rows.usable c.
Proof.
  destruct c as [ [ | q ] | ]; cbn [IV.none_or_nonpositive Float.leb];
    intro H; [ | | discriminate ].
  - split; [ discriminate | intros q [=] ].
  - split; [ discriminate | ]. intros q' [= <-].
    apply Qle_bool_false. exact H.
Qed.

Lemma guard_usable (a b c d e : cell) :
  existsb IV.none_or_nonpositive [a; b; c; d; e] = false ->
  Rows.usable a /\ Rows.usable b /\ Rows.usable c /\ Rows.usable d
  /\ Rows.usable e.
Proof.
  cbn [existsb]. intro H.
  apply orb_false_elim in H as [Ha H].
  apply orb_false_elim in H as [Hb H].
  apply orb_false_elim in H as [Hc H].
  apply orb_false_elim in H as [Hd H].
  apply orb_false_elim in H as [He _].
  repeat split; apply usable_of_guard; assumption.
Qed.

Lemma text_of_guard (s : option string) :
  IV.no_text s = false -> exists text, s = Some text /\ text <> ""%string.
Proof.
  destruct s as [ text | ]; cbn [IV.no_text]; [ | discriminate ].
  intro H. exists text. split; [ reflexivity | ].
  intros ->. discriminate.
Qed.

Lemma brent_iv_guard (p s k t : Q) (r : float) (option_type : string)
    (x : float) :
  BrentBS.calculate_implied_volatility (Num p) (Num s) (Num k) (Num t) r
                                       option_type
  = Some x ->
  0 < s /\ 0 < k /\ 0 < t /\ 0 < p.
Proof.
  unfold BrentBS.calculate_implied_volatility. cbn [Float.leb].
  destruct (Qle_bool s 0) eqn:Es; [ discriminate | ].
  destruct (Qle_bool k 0) eqn:Ek; [ discriminate | ].
  destruct (Qle_bool t 0) eqn:Et; [ discriminate | ].
  destruct (Qle_bool p 0) eqn:Ep; [ discriminate | ].
  intros _.
  apply Qle_bool_false in Es, Ek, Et, Ep. tauto.
Qed.

Lemma brent_greeks_complete (S K r : float) (t q : Q)
    (option_type : string) :
  0 < t -> 0 < q ->
  Rows.complete (BrentBS.calculate_greeks S K (Num t) r (Num q) option_type)
  = true.
Proof.
  intros Ht Hq. unfold BrentBS.calculate_greeks. cbn [Float.leb].
  rewrite (proj2 (Qle_bool_false t 0) Ht).
  rewrite (proj2 (Qle_bool_false q 0) Hq).
  cbn [orb]. reflexivity.
Qed.

Lemma grok_greeks_complete (S K T r sigma : float) (option_type : string)
    (g : IV.Greeks) :
  Grok.calculate_greeks S K T r sigma option_type = Some g ->
  Rows.complete g = true.
Proof.
  unfold Grok.calculate_greeks.
  destruct (_ || _); [ discriminate | ]. intros [= <-]. reflexivity.
Qed.

Lemma hybrid_greeks_complete (S K T r sigma : float) (option_type : string)
    (g : IV.Greeks) :
  HybridOne.calculate_greeks S K T r sigma option_type = Some g ->
  Rows.complete g = true
  /\ forall q, sigma = Num q -> 0 < q.
Proof.
  unfold HybridOne.calculate_greeks.
  destruct (existsb _ _) eqn:E; [ discriminate | ]. intros [= <-].
  split; [ reflexivity | ].
  intros q ->. cbn [existsb Float.leb] in E.
  apply orb_false_elim in E as [_ E].
  apply orb_false_elim in E as [_ E].
  apply orb_false_elim in E as [_ E].
  apply orb_false_elim in E as [E _].
  apply Qle_bool_false. exact E.
Qed.

End KeptRows.

(** X18: a row kept by the loop of [brent_bs_adjusted_processing] has
    numbers for spot, strike, time to expiry and last price, all of them
    positive; its implied volatility lies in [1e-6, 10]; and none of its
    seven Greeks is [None]: the all-[None] answer of [calculate_greeks]
    is never stored. *)
Theorem brent_kept_rows {sp : Scipy} {laws : ScipyLaws sp}
    (row : IV.Row) (iv : float) (greeks : IV.Greeks) :
  BrentBS.process_row row = Some (iv, greeks) ->
  exists s k t price q,
    IV.spotPrice row = Some (Num s) /\ 0 < s
    /\ IV.strikePrice row = Some (Num k) /\ 0 < k
    /\ IV.T row = Some (Num t) /\ 0 < t
    /\ IV.last row = Some (Num price) /\ 0 < price
    /\ iv = Num q /\ 1e-6 <= q <= 10
    /\ Rows.complete greeks = true.
Proof.
  unfold BrentBS.process_row, BrentBS.market_price. cbv zeta.
  destruct (IV.spotPrice row) as [ [ | s ] | ],
           (IV.strikePrice row) as [ [ | k ] | ],
           (IV.T row) as [ [ | t ] | ],
           (IV.SOFR row) as [ [ | r ] | ],
           (IV.last row) as [ [ | price ] | ];
    cbn [existsb IV.isnull orb]; try discriminate.
  destruct (BrentBS.calculate_implied_volatility _ _ _ _ _ _)
    as [ x | ] eqn:E; [ | discriminate ].
  intros [= <- <-].
  destruct (brent_iv_guard _ _ _ _ _ _ _ E) as [Hs [Hk [Ht Hp]]].
  destruct (brent_iv_range _ _ _ _ _ _ _ E) as [q [-> Hq]].
  exists s, k, t, price, q.
  repeat (split; [ first [ reflexivity | assumption ] | ]).
  apply brent_greeks_complete; [ exact Ht | ].
  apply Qlt_le_trans with 1e-6; [ reflexivity | apply Hq ].
Qed.

Lemma brent_kept_rows_witness :
  exists iv greeks,
    BrentBS.process_row (sp := Coarse.scipy)
      (IV.mkRow (Some (Num 100)) (Some (Num 100)) (Some (Num 0.25))
                (Some (Num 0.05)) (Some "CALL"%string)
                None None (Some (Num 5)))
    = Some (iv, greeks)
    /\ (exists q, iv = Num q /\ 1e-6 <= q <= 10)
    /\ Rows.complete greeks = true.
Proof.
  destruct (BrentBS.process_row (sp := Coarse.scipy)
              (IV.mkRow (Some (Num 100)) (Some (Num 100)) (Some (Num 0.25))
                        (Some (Num 0.05)) (Some "CALL"%string)
                        None None (Some (Num 5))))
    as [ [iv greeks] | ] eqn:E.
  - exists iv, greeks. split; [ reflexivity | ].
    destruct (brent_kept_rows (sp := Coarse.scipy)
                (laws := CoarseFacts.scipy_laws) _ _ _ E)
      as [s [k [t [price [q H]]]]].
    split; [ exists q | ]; tauto.
  - exfalso.
    assert (H : match BrentBS.process_row (sp := Coarse.scipy)
              (IV.mkRow (Some (Num 100)) (Some (Num 100)) (Some (Num 0.25))
                        (Some (Num 0.05)) (Some "CALL"%string)
                        None None (Some (Num 5)))
                with Some _ => true | None => false end = true)
      by (lazy; reflexivity).
    rewrite E in H. discriminate H.
Defined.

(** X19: a row kept by [process_row] of grok.py has spot, strike, time to
    expiry, rate and market price all present and none of them zero or
    negative, a non-empty option type, an implied volatility in (0, 10],
    and all seven Greeks. *)
Theorem grok_kept_rows {sp : Scipy}
    (row : IV.Row) (iv : float) (greeks : IV.Greeks) :
  Grok.process_row row = Some (iv, greeks) ->
  Rows.usable (IV.spotPrice row) /\ Rows.usable (IV.strikePrice row)
  /\ Rows.usable (IV.T row) /\ Rows.usable (IV.SOFR row)
  /\ Rows.usable (Grok.market_price row)
  /\ (exists text, IV.putCall row = Some text /\ text <> ""%string)
  /\ (exists q, iv = Num q /\ 0 < q <= 10)
  /\ Rows.complete greeks = true.
Proof.
  unfold Grok.process_row. cbv zeta.
  destruct (existsb _ _) eqn:G; [ discriminate | ].
  destruct (IV.no_text _) eqn:N; [ discriminate | ].
  cbn [orb].
  destruct (guard_usable _ _ _ _ _ G) as [Hs [Hk [Ht [Hr Hp]]]].
  pose proof (text_of_guard _ N) as Htext.
  destruct (IV.spotPrice row) as [ s | ], (IV.strikePrice row) as [ k | ],
    (IV.T row) as [ t | ], (IV.SOFR row) as [ r | ],
    (Grok.market_price row) as [ price | ],
    (IV.putCall row) as [ option_type | ]; try discriminate.
  destruct (Grok.implied_volatility _ _ _ _ _ _) as [ x | e ] eqn:E;
    [ | discriminate ].
  destruct x as [ | q ]; cbn [Float.isnan]; [ discriminate | ].
  destruct (Grok.calculate_greeks _ _ _ _ _ _) as [ g | ] eqn:Eg;
    [ | discriminate ].
  intros [= <- <-].
  refine (conj Hs (conj Hk (conj Ht (conj Hr (conj Hp
            (conj Htext (conj _ _))))))).
  - exists q. split; [ reflexivity | ].
    apply (grok_iv_range _ _ _ _ _ _ _ E).
  - apply (grok_greeks_complete _ _ _ _ _ _ _ Eg).
Qed.

Lemma grok_kept_rows_witness :
  exists iv greeks,
    Grok.process_row (sp := Coarse.scipy)
      (IV.mkRow (Some (Num 100)) (Some (Num 100)) (Some (Num 1))
                (Some (Num 0.05)) (Some "CALL"%string)
                (Some (Num 0)) (Some (Num 14.8125)) None)
    = Some (iv, greeks)
    /\ (exists q, iv = Num q /\ 0 < q <= 10)
    /\ Rows.complete greeks = true.
Proof.
  destruct (Grok.process_row (sp := Coarse.scipy)
              (IV.mkRow (Some (Num 100)) (Some (Num 100)) (Some (Num 1))
                        (Some (Num 0.05)) (Some "CALL"%string)
                        (Some (Num 0)) (Some (Num 14.8125)) None))
    as [ [iv greeks] | ] eqn:E.
  - exists iv, greeks. split; [ reflexivity | ].
    pose proof (grok_kept_rows (sp := Coarse.scipy) _ _ _ E) as H.
    tauto.
  - exfalso.
    assert (H : match Grok.process_row (sp := Coarse.scipy)
              (IV.mkRow (Some (Num 100)) (Some (Num 100)) (Some (Num 1))
                        (Some (Num 0.05)) (Some "CALL"%string)
                        (Some (Num 0)) (Some (Num 14.8125)) None)
                with Some _ => true | None => false end = true)
      by (lazy; reflexivity).
    rewrite E in H. discriminate H.
Defined.

(** X20: a row kept by [process_row] of hybrid_one.py has spot, strike,
    time to expiry, rate and market price all present and none of them
    zero or negative, a non-empty option type, all seven Greeks, and an
    implied volatility that is not zero or negative: the row is dropped
    whenever the refined estimate is. *)
Theorem hybrid_kept_rows {sp : Scipy}
    (row : IV.Row) (iv : float) (greeks : IV.Greeks) :
  HybridOne.process_row row = Some (iv, greeks) ->
  Rows.usable (IV.spotPrice row) /\ Rows.usable (IV.strikePrice row)
  /\ Rows.usable (IV.T row) /\ Rows.usable (IV.SOFR row)
  /\ Rows.usable (HybridOne.market_price row)
  /\ (exists text, IV.putCall row = Some text /\ text <> ""%string)
  /\ (forall q, iv = Num q -> 0 < q)
  /\ Rows.complete greeks = true.
Proof.
  unfold HybridOne.process_row. cbv zeta.
  destruct (existsb _ _) eqn:G; [ discriminate | ].
  destruct (IV.no_text _) eqn:N; [ discriminate | ].
  cbn [orb].
  destruct (guard_usable _ _ _ _ _ G) as [Hs [Hk [Ht [Hr Hp]]]].
  pose proof (text_of_guard _ N) as Htext.
  destruct (IV.spotPrice row) as [ s | ], (IV.strikePrice row) as [ k | ],
    (IV.T row) as [ t | ], (IV.SOFR row) as [ r | ],
    (HybridOne.market_price row) as [ price | ],
    (IV.putCall row) as [ option_type | ]; try discriminate.
  destruct (HybridOne.calculate_greeks _ _ _ _ _ _) as [ g | ] eqn:Eg;
    [ | discriminate ].
  intros [= <- <-].
  destruct (hybrid_greeks_complete _ _ _ _ _ _ _ Eg) as [Hc Hpos].
  exact (conj Hs (conj Hk (conj Ht (conj Hr (conj Hp
           (conj Htext (conj Hpos Hc))))))).
Qed.

Lemma hybrid_kept_rows_witness :
  exists iv greeks,
    HybridOne.process_row (sp := Coarse.scipy)
      (IV.mkRow (Some (Num 100)) (Some (Num 100)) (Some (Num 1))
                (Some (Num 0.05)) (Some "CALL"%string)
                (Some (Num 1)) None None)
    = Some (iv, greeks)
    /\ (forall q, iv = Num q -> 0 < q)
    /\ Rows.complete greeks = true.
Proof.
  destruct (HybridOne.process_row (sp := Coarse.scipy)
              (IV.mkRow (Some (Num 100)) (Some (Num 100)) (Some (Num 1))
                        (Some (Num 0.05)) (Some "CALL"%string)
                        (Some (Num 1)) None None))
    as [ [iv greeks] | ] eqn:E.
  - exists iv, greeks. split; [ reflexivity | ].
    pose proof (hybrid_kept_rows (sp := Coarse.scipy) _ _ _ E) as H.
    tauto.
  - exfalso.
    assert (H : match HybridOne.process_row (sp := Coarse.scipy)
              (IV.mkRow (Some (Num 100)) (Some (Num 100)) (Some (Num 1))
                        (Some (Num 0.05)) (Some "CALL"%string)
                        (Some (Num 1)) None None)
                with Some _ => true | None => false end = true)
      by (lazy; reflexivity).
    rewrite E in H. discriminate H.
Defined.

Section Estimates.

Context {sp : Scipy}.

Lemma py_max_floor (a : Q) (x : float) :
  exists l, Float.py_max (Num a) x = Num l /\ a <= l
            /\ forall i, x = Num i -> l == Qmax a i.
Proof.
  unfold Float.py_max. destruct x as [ | i ]; cbn [Float.ltb].
  - exists a. split; [ reflexivity | ]. split; [ lra | intros i [=] ].
  - destruct (Qlt_bool a i) eqn:E.
    + apply Qlt_bool_iff in E. exists i. split; [ reflexivity | ].
      split; [ lra | ]. intros i' [= <-]. rewrite Q.max_r; lra.
    + apply Qlt_bool_false in E. exists a. split; [ reflexivity | ].
      split; [ lra | ]. intros i' [= <-]. rewrite Q.max_l; lra.
Qed.

Lemma py_min_cap (a u : Q) :
  exists h, Float.py_min (Num a) (Num u) = Num h /\ h == Qmin a u.
Proof.
  unfold Float.py_min. cbn [Float.ltb].
  destruct (Qlt_bool u a) eqn:E.
  - apply Qlt_bool_iff in E. exists u. split; [ reflexivity | ].
    rewrite Q.min_r; lra.
  - apply Qlt_bool_false in E. exists a. split; [ reflexivity | ].
    rewrite Q.min_l; lra.
Qed.

Lemma hybrid_rejects_zero_sigma (S K T r : float) (q : Q)
    (option_type : string) :
  q <= 0 ->
  HybridOne.calculate_greeks S K T r (Num q) option_type = None.
Proof.
  intro Hq. unfold HybridOne.calculate_greeks.
  replace (existsb (fun param => (param <=? Num 0)%F) [S; K; T; Num q])
    with true; [ reflexivity | ].
  symmetry. apply existsb_exists. exists (Num q). split.
  - do 3 right. left. reflexivity.
  - apply Qle_bool_iff. exact Hq.
Qed.

End Estimates.

(** X21: [closed_form_iv] never answers a negative number: its result is
    [nan], zero or positive, whatever the inputs. *)
Theorem closed_form_iv_is_never_negative {sp : Scipy}
    (S K T r observed_price : float) (option_type : string) :
  HybridOne.closed_form_iv S K T r option_type observed_price = NaN
  \/ exists q, HybridOne.closed_form_iv S K T r option_type observed_price
               = Num q
               /\ 0 <= q.
Proof.
  unfold HybridOne.closed_form_iv.
  destruct (_ || _); [ left; reflexivity | ]. cbv zeta.
  destruct (Float.leb observed_price _).
  - right. exists 0. split; [ reflexivity | lra ].
  - unfold Float.py_max.
    destruct (_ * _)%F as [ | e ]; cbn [Float.ltb];
      [ left; reflexivity | right ].
    destruct (Qlt_bool e 0) eqn:E.
    + exists 0. split; [ reflexivity | lra ].
    + apply Qlt_bool_false in E. exists e. split; [ reflexivity | exact E ].
Qed.

(** X22: for an initial estimate [i] of at most 10, the bracket that
    [refine_iv] searches, [max(1e-6, 0.5 i)] to
    [min(5, max(1, 1.5 i))], is not empty, and [refine_iv] returns either
    the estimate unchanged (the root finder raised) or a number inside
    that bracket. *)
Theorem refine_iv_stays_in_bracket {sp : Scipy} {laws : ScipyLaws sp}
    (S K T r observed_price : float) (option_type : string) (i : Q) :
  i <= 10 ->
  Qmax 1e-6 (i * 0.5) <= Qmin 5 (Qmax 1 (i * 1.5))
  /\ (HybridOne.refine_iv S K T r option_type observed_price (Num i) = Num i
      \/ exists q,
           HybridOne.refine_iv S K T r option_type observed_price (Num i)
           = Num q
           /\ Qmax 1e-6 (i * 0.5) <= q <= Qmin 5 (Qmax 1 (i * 1.5))).
Proof.
  intros Hi. split.
  - assert (H6 : 1e-6 <= 1) by discriminate.
    destruct (Q.max_spec 1e-6 (i * 0.5)) as [ [_ ->] | [_ ->] ];
      destruct (Q.max_spec 1 (i * 1.5)) as [ [H1 ->] | [H1 ->] ];
      apply Q.min_glb; lra.
  - unfold HybridOne.refine_iv. cbv zeta.
    destruct (py_max_floor 1e-6 (Num i * Num 0.5)%F) as [l [-> [_ Hl]]].
    destruct (py_max_floor 1 (Num i * Num 1.5)%F) as [m [-> [_ Hm]]].
    destruct (py_min_cap 5 m) as [h [-> Hh]].
    specialize (Hl _ eq_refl). specialize (Hm _ eq_refl).
    destruct (brentq _ _ _ _) as [ root | e ] eqn:E;
      [ right | left; reflexivity ].
    destruct (brentq_in_bracket _ _ _ _ _ E) as [q [-> Hq]].
    exists q. split; [ reflexivity | ].
    rewrite <- Hl, <- Hm, <- Hh. exact Hq.
Qed.

Lemma refine_iv_stays_in_bracket_witness :
  Qmax 1e-6 (0.0864159 * 0.5) <= Qmin 5 (Qmax 1 (0.0864159 * 1.5))
  /\ (HybridOne.refine_iv (sp := Coarse.scipy) (Num 100) (Num 100) (Num 1)
        (Num 0.05) "CALL" (Num 1) (Num 0.0864159)
      = Num 0.0864159
      \/ exists q,
           HybridOne.refine_iv (sp := Coarse.scipy) (Num 100) (Num 100)
             (Num 1) (Num 0.05) "CALL" (Num 1) (Num 0.0864159)
           = Num q
           /\ Qmax 1e-6 (0.0864159 * 0.5) <= q
              <= Qmin 5 (Qmax 1 (0.0864159 * 1.5))).
Proof.
  apply (refine_iv_stays_in_bracket (sp := Coarse.scipy)
           (laws := CoarseFacts.scipy_laws)).
  discriminate.
Defined.

(** X23: a row of hybrid_one.py with positive spot, strike, time to
    expiry, rate and market price whose price is at or below intrinsic
    value is never kept with an implied volatility of 0.0: it is either
    dropped or kept with a refined volatility in [1e-6, 1]. *)
Theorem hybrid_row_at_intrinsic_value {sp : Scipy} {laws : ScipyLaws sp}
    (row : IV.Row) (s k t r price : Q) (option_type : string) :
  IV.spotPrice row = Some (Num s) -> IV.strikePrice row = Some (Num k) ->
  IV.T row = Some (Num t) -> IV.SOFR row = Some (Num r) ->
  IV.putCall row = Some option_type ->
  HybridOne.market_price row = Some (Num price) ->
  0 < s -> 0 < k -> 0 < t -> 0 < price ->
  price <= IV.intrinsic_value option_type s k ->
  HybridOne.process_row row = None
  \/ exists q greeks,
       HybridOne.process_row row = Some (Num q, greeks)
       /\ 1e-6 <= q <= 1.
Proof.
  intros Es Ek Et Er Eo Ep Hs Hk Ht Hp Hin.
  unfold HybridOne.process_row. cbv zeta.
  rewrite Es, Ek, Et, Er, Eo, Ep.
  destruct (_ || _); [ left; reflexivity | ].
  rewrite (closed_form_at_intrinsic s k t r price option_type Hs Hk Ht Hp Hin).
  destruct (refine_from_zero (Num s) (Num k) (Num t) (Num r) (Num price)
              option_type) as [ -> | [q [-> Hq]] ].
  - left. rewrite hybrid_rejects_zero_sigma; [ reflexivity | lra ].
  - destruct (HybridOne.calculate_greeks _ _ _ _ _ _) as [ g | ];
      [ right | left; reflexivity ].
    exists q, g. split; [ reflexivity | exact Hq ].
Qed.

Lemma hybrid_row_at_intrinsic_value_witness :
  HybridOne.process_row (sp := Coarse.scipy)
    (IV.mkRow (Some (Num 110)) (Some (Num 100)) (Some (Num 0.1))
              (Some (Num 0.05)) (Some "CALL"%string)
              (Some (Num 5)) None None)
  = None
  \/ exists q greeks,
       HybridOne.process_row (sp := Coarse.scipy)
         (IV.mkRow (Some (Num 110)) (Some (Num 100)) (Some (Num 0.1))
                   (Some (Num 0.05)) (Some "CALL"%string)
                   (Some (Num 5)) None None)
       = Some (Num q, greeks)
       /\ 1e-6 <= q <= 1.
Proof.
  assert (Hi : 5 <= IV.intrinsic_value "CALL" 110 100)
    by (vm_compute; discriminate).
  exact (hybrid_row_at_intrinsic_value (sp := Coarse.scipy)
           (laws := CoarseFacts.scipy_laws)
           (IV.mkRow (Some (Num 110)) (Some (Num 100)) (Some (Num 0.1))
                     (Some (Num 0.05)) (Some "CALL"%string)
                     (Some (Num 5)) None None)
           110 100 0.1 0.05 5 "CALL"
           eq_refl eq_refl eq_refl eq_refl eq_refl eq_refl
           eq_refl eq_refl eq_refl eq_refl Hi).
Defined.

(** X24: grok.py and hybrid_one.py compute the same Greeks for every
    volatility that is not above 10, the value at which grok.py caps the
    volatility inside [d1]. *)
Theorem grok_and_hybrid_greeks_agree {sp : Scipy}
    (S K T r sigma : float) (option_type : string) :
  (Num 10 <? sigma)%F = false ->
  Grok.calculate_greeks S K T r sigma option_type
  = HybridOne.calculate_greeks S K T r sigma option_type.
Proof.
  intro Hcap.
  unfold Grok.calculate_greeks, HybridOne.calculate_greeks.
  cbn [existsb].
  destruct (sigma <=? Num 0)%F eqn:Esig.
  - rewrite !orb_true_r. reflexivity.
  - destruct (S <=? Num 0)%F; [ reflexivity | ].
    destruct (K <=? Num 0)%F; [ reflexivity | ].
    destruct (T <=? Num 0)%F eqn:ET; [ reflexivity | ].
    cbn [orb]. unfold Grok.d2, Grok.d1.
    rewrite Esig, ET. cbn [orb]. cbv zeta.
    unfold Float.py_min. rewrite Hcap. reflexivity.
Qed.

Lemma grok_and_hybrid_greeks_agree_witness :
  Grok.calculate_greeks (sp := Coarse.scipy)
    (Num 100) (Num 100) (Num 1) (Num 0.05) (Num 0.5) "PUT"
  = HybridOne.calculate_greeks (sp := Coarse.scipy)
      (Num 100) (Num 100) (Num 1) (Num 0.05) (Num 0.5) "PUT".
Proof.
  apply (grok_and_hybrid_greeks_agree (sp := Coarse.scipy)). reflexivity.
Defined.

(* ================================================================== *)
(** * Edge cases of the exposure scripts *)


Lemma groupby_one_strike (k : Q) (rows : list (Q * Q)) (acc : Pandas.series) :
  Forall (fun r => fst r == k) rows ->
  Forall (fun g => fst g == k) acc -> (List.length acc <= 1)%nat ->
  (List.length
     (fold_left (fun acc r => Pandas.insert_group (fst r) (snd r) acc)
                rows acc) <= 1)%nat.
Proof.
  intro Hrows. revert acc.
  induction Hrows as [ | [k1 v1] rest Hk1 _ IH ]; intros acc Hacc Hlen;
    cbn [fold_left]; [ exact Hlen | ].
  cbn [fst snd] in *. apply IH.
  - destruct acc as [ | [k' v'] [ | p t ] ]; cbn [Pandas.insert_group].
    + constructor; [ exact Hk1 | constructor ].
    + apply Forall_inv in Hacc. cbn [fst] in Hacc.
      destruct (k1 ?= k') eqn:E.
      * constructor; [ exact Hacc | constructor ].
      * constructor; [ exact Hk1 | ].
        constructor; [ exact Hacc | constructor ].
      * constructor; [ exact Hacc | ].
        constructor; [ exact Hk1 | constructor ].
    + cbn [List.length] in Hlen. lia.
  - destruct acc as [ | [k' v'] [ | p t ] ]; cbn [Pandas.insert_group].
    + cbn [List.length]. lia.
    + apply Forall_inv in Hacc. cbn [fst] in Hacc.
      assert (E : (k1 ?= k') = Eq)
        by (apply Qeq_alt; rewrite Hk1, Hacc; reflexivity).
      rewrite E. cbn [List.length]. lia.
    + cbn [List.length] in Hlen. lia.
Qed.

(** X26: rows that all sit on one strike, and an empty file, have no
    gamma flip: both methods answer [None]. *)
Theorem one_strike_has_no_flip (k : Q) (rows : list (Q * Q)) :
  Forall (fun r => fst r == k) rows ->
  Ratio.process_file rows = (None, None).
Proof.
  intro Hrows.
  assert (Hlen : (List.length (Pandas.groupby_sum rows) <= 1)%nat).
  { unfold Pandas.groupby_sum. apply (groupby_one_strike k).
    - exact Hrows.
    - constructor.
    - cbn [List.length]. lia. }
  unfold Ratio.process_file, Ratio.gex_by_strike. cbv zeta.
  destruct (Pandas.groupby_sum rows) as [ | [k' v] [ | p rest ] ].
  - reflexivity.
  - reflexivity.
  - cbn [List.length] in Hlen. lia.
Qed.

Lemma one_strike_has_no_flip_witness :
  Ratio.process_file [(5000, 12); (5000, -30); (5000, 4)] = (None, None).
Proof.
  apply (one_strike_has_no_flip 5000).
  repeat constructor.
Defined.
